(** * ROW: one line of the terminal text buffer (src/buffer/out/Row.hpp, Row.cpp)

    A shallow embedding of the [ROW] class: the packed character buffer
    [_chars], the column-to-offset table [_indices], the run-length encoded
    attributes [_attr] and the two flags, together with the member functions
    that read and mutate them.

    Conventions of the embedding.
    - [wchar_t] is the 16-bit code unit of the target platform, stored
      little-endian; the character buffer is modelled at byte granularity
      because [memcpy] and [memmove] count bytes while [wmemset] and
      [std::wstring_view] count code units.
    - [uint16_t] and [size_t] values are integers of [Z]; every wrap-around
      of the source is written out ([mod 2^16], [mod 2^64]).
    - A member function returns an [outcome]: it completes, it throws, or it
      touches memory outside an allocation. *)

From Stdlib Require Import ZArith List Lia Bool.
Import ListNotations.
Local Open Scope Z_scope.

(** ** Machine integers *)

Definition u16 (z : Z) : Z := z mod 2 ^ 16.
Definition usize (z : Z) : Z := z mod 2 ^ 64.

(** The blank glyph, [UNICODE_SPACE] and [L' ']. *)
Definition UNICODE_SPACE : Z := 32.

(** ** Code units and bytes *)

Definition wchar_bytes (c : Z) : list Z := [c mod 256; (c / 256) mod 256].

Fixpoint wstr_bytes (s : list Z) : list Z :=
  match s with
  | [] => []
  | c :: s' => wchar_bytes c ++ wstr_bytes s'
  end.

Fixpoint bytes_wstr (b : list Z) : list Z :=
  match b with
  | lo :: hi :: b' => (lo + 256 * hi) :: bytes_wstr b'
  | _ => []
  end.

(** ** Outcomes *)

Inductive exn : Type :=
| E_INVALIDARG
| bad_alloc.

Inductive outcome (S A : Type) : Type :=
| Done (a : A)
| Thrown (e : exn) (s : S)
| Undefined.
Arguments Done {S A} a.
Arguments Thrown {S A} e s.
Arguments Undefined {S A}.

Definition bind {S A B : Type} (m : outcome S A) (k : A -> outcome S B)
  : outcome S B :=
  match m with
  | Done a => k a
  | Thrown e s => Thrown e s
  | Undefined => Undefined
  end.

Definition access {S A : Type} (o : option A) : outcome S A :=
  match o with
  | Some a => Done a
  | None => Undefined
  end.

Declare Scope outcome_scope.
Delimit Scope outcome_scope with outcome.
Notation "x <- m ;; k" := (bind m (fun x => k))
  (at level 61, m at next level, right associativity) : outcome_scope.
Notation "' p <- m ;; k" := (bind m (fun q => let p := q in k))
  (at level 61, p pattern, m at next level, right associativity) : outcome_scope.
Local Open Scope outcome_scope.

(** ** Raw memory of one allocation, addressed in bytes *)

Definition load_bytes (m : list Z) (off n : Z) : option (list Z) :=
  if (0 <=? off) && (0 <=? n) && (off + n <=? Z.of_nat (length m))
  then Some (firstn (Z.to_nat n) (skipn (Z.to_nat off) m))
  else None.

Definition store_bytes (m : list Z) (off : Z) (src : list Z) : option (list Z) :=
  if (0 <=? off) && (off + Z.of_nat (length src) <=? Z.of_nat (length m))
  then Some (firstn (Z.to_nat off) m ++ src
             ++ skipn (Z.to_nat off + length src) m)
  else None.

(** [memcpy(dst + doff, src + soff, n)], all three counted in bytes. *)
Definition memcpy (dst : list Z) (doff : Z) (src : list Z) (soff n : Z)
  : option (list Z) :=
  match load_bytes src soff n with
  | Some b => store_bytes dst doff b
  | None => None
  end.

(** [memmove] inside one allocation. *)
Definition memmove (m : list Z) (doff soff n : Z) : option (list Z) :=
  memcpy m doff m soff n.

(** [wmemset(p, c, n)] writes [n] code units. *)
Definition wmemset (m : list Z) (c : Z) (n : Z) : option (list Z) :=
  if 0 <=? n then store_bytes m 0 (wstr_bytes (repeat c (Z.to_nat n)))
  else None.

(** ** Attributes *)

(** The text attribute is an opaque value compared with [==]. *)
Definition TextAttribute : Type := Z.

(** Modelled from the spec: [til::small_rle] (til/rle.h), the run-length
    encoded attribute list of the row, which is not part of the two source
    files.  It is an ordered sequence of [(value, runLength)] pairs whose
    runs are maximal; [replace] overwrites a half-open column range with one
    value, splitting and merging runs as needed, and keeps the total
    length. *)
Module rle.

Definition t : Type := list (TextAttribute * nat).

Fixpoint size (a : t) : nat :=
  match a with
  | [] => 0%nat
  | (_, n) :: a' => (n + size a')%nat
  end.

Fixpoint expand (a : t) : list TextAttribute :=
  match a with
  | [] => []
  | (v, n) :: a' => repeat v n ++ expand a'
  end.

Fixpoint compress (l : list TextAttribute) : t :=
  match l with
  | [] => []
  | v :: l' =>
      match compress l' with
      | (v', n) :: a' => if v =? v' then (v, S n) :: a'
                         else (v, 1%nat) :: (v', n) :: a'
      | [] => [(v, 1%nat)]
      end
  end.

Fixpoint overwrite (b e : nat) (v : TextAttribute) (i : nat)
  (l : list TextAttribute) : list TextAttribute :=
  match l with
  | [] => []
  | a :: l' =>
      (if (b <=? i)%nat && (i <? e)%nat then v else a)
        :: overwrite b e v (S i) l'
  end.

Definition replace (b e : nat) (v : TextAttribute) (a : t) : t :=
  compress (overwrite b e v 0 (expand a)).

Definition at_ (a : t) (column : nat) : option TextAttribute :=
  nth_error (expand a) column.

End rle.

(** ** The row *)

Inductive LineRendition : Type :=
| SingleWidth
| DoubleWidth
| DoubleHeightTop
| DoubleHeightBottom.

Record ROW : Type := mkROW {
  _chars : list Z;          (* the allocation behind [wchar_t* _chars], in bytes *)
  _charsCapacity : Z;       (* its capacity, in code units *)
  _indices : list Z;        (* [uint16_t* _indices], [_indicesCount + 1] entries *)
  _indicesCount : Z;
  _attr : rle.t;
  _lineRendition : LineRendition;
  _wrapForced : bool;
  _doubleBytePadded : bool
}.

Definition result (A : Type) : Type := outcome ROW A.

Definition with_chars (r : ROW) (c : list Z) (cap : Z) : ROW :=
  mkROW c cap (_indices r) (_indicesCount r) (_attr r)
        (_lineRendition r) (_wrapForced r) (_doubleBytePadded r).

Definition with_indices (r : ROW) (i : list Z) : ROW :=
  mkROW (_chars r) (_charsCapacity r) i (_indicesCount r) (_attr r)
        (_lineRendition r) (_wrapForced r) (_doubleBytePadded r).

Definition with_attr (r : ROW) (a : rle.t) : ROW :=
  mkROW (_chars r) (_charsCapacity r) (_indices r) (_indicesCount r) a
        (_lineRendition r) (_wrapForced r) (_doubleBytePadded r).

Definition SetWrapForced (wrap : bool) (r : ROW) : ROW :=
  mkROW (_chars r) (_charsCapacity r) (_indices r) (_indicesCount r) (_attr r)
        (_lineRendition r) wrap (_doubleBytePadded r).

Definition SetDoubleBytePadded (p : bool) (r : ROW) : ROW :=
  mkROW (_chars r) (_charsCapacity r) (_indices r) (_indicesCount r) (_attr r)
        (_lineRendition r) (_wrapForced r) p.

Definition size (r : ROW) : Z := _indicesCount r.

(** [_indices[i]]. *)
Definition index_at (r : ROW) (i : Z) : option Z :=
  if 0 <=? i then nth_error (_indices r) (Z.to_nat i) else None.

(** The [for (;; x2++)] scan of [Replace] and [GlyphAt]: the first entry
    from position [x2] on that differs from [lhs]; running off the table is
    an out-of-bounds read. *)
Fixpoint scan_ne (lhs : Z) (l : list Z) (x2 : Z) : option (Z * Z) :=
  match l with
  | [] => None
  | rhs :: l' => if rhs =? lhs then scan_ne lhs l' (x2 + 1) else Some (rhs, x2)
  end.

(** Apply [f] to the entries at positions [lo <= i < hi]. *)
Definition update_range (f : Z -> Z) (lo hi : Z) (l : list Z) : option (list Z) :=
  if (0 <=? lo) && (lo <=? hi) && (hi <=? Z.of_nat (length l))
  then Some (firstn (Z.to_nat lo) l
             ++ map f (firstn (Z.to_nat (hi - lo)) (skipn (Z.to_nat lo) l))
             ++ skipn (Z.to_nat hi) l)
  else None.

(** [operator new[]] fails beyond this many bytes. *)
Definition alloc_max : Z := 2 ^ 63 - 1.

Section Row.

(** The indeterminate content of freshly allocated memory, byte by byte. *)
Variable uninit : nat -> Z.

Definition operator_new (bytes : Z) : list Z :=
  map uninit (seq 0 (Z.to_nat bytes)).

(** The two branches on [newLength <= _charsCapacity]: the text after the
    glyph is moved inside the buffer, or into a larger one. *)
Definition Replace_move (lhs rhs n diff currentLength : Z) (r : ROW)
  : result ROW :=
  let newLength := usize (currentLength + diff) in
  let newRhs := usize (lhs + n) in
  if newLength <=? _charsCapacity r then
    c <- access (memmove (_chars r) (2 * newRhs) (2 * rhs)
                         (currentLength - rhs)) ;;
    Done (with_chars r c (_charsCapacity r))
  else
    let newCapacity :=
      Z.max newLength
            (usize (_charsCapacity r + Z.shiftr (_charsCapacity r) 1)) in
    let bytes := usize (2 * newCapacity) in
    if alloc_max <? bytes then Thrown bad_alloc r else
    let c := operator_new bytes in
    c <- access (memcpy c 0 (_chars r) 0 lhs) ;;
    c <- access (memcpy c (2 * newRhs) (_chars r) (2 * rhs)
                        (currentLength - rhs)) ;;
    Done (with_chars r c newCapacity).

(** The block [if (diff != 0) { ... }]. *)
Definition Replace_shift (lhs rhs n x2 : Z) (r : ROW) : result ROW :=
  let diff := usize (rhs - lhs - n) in
  if diff =? 0 then Done r else
  currentLength <- access (index_at r (_indicesCount r)) ;;
  r <- Replace_move lhs rhs n diff currentLength r ;;
  i <- access (update_range (fun v => u16 (v + diff))
                            x2 (_indicesCount r + 1) (_indices r)) ;;
  Done (with_indices r i).

(** [ROW::Replace(size_t x, size_t width, const std::wstring_view& chars)] *)
Definition Replace (x width : Z) (chars : list Z) (r : ROW) : result ROW :=
  match chars with
  | [] => Done r
  | _ :: _ =>
    let x1 := Z.min x (_indicesCount r) in
    let x2 := Z.min (usize (x1 + width)) (_indicesCount r) in
    lhs <- access (index_at r x1) ;;
    ' (rhs, x2) <- access (scan_ne lhs (skipn (Z.to_nat x2) (_indices r)) x2) ;;
    let n := Z.of_nat (length chars) in
    r <- Replace_shift lhs rhs n x2 r ;;
    c <- access (memcpy (_chars r) (2 * lhs) (wstr_bytes chars) 0 n) ;;
    i <- access (update_range (fun _ => lhs) x1 x2 (_indices r)) ;;
    Done (with_indices (with_chars r c (_charsCapacity r)) i)
  end.

(** [ROW::ClearCell] *)
Definition ClearCell (column : Z) (r : ROW) : result ROW :=
  Replace column 1 [UNICODE_SPACE] r.

(** [ROW::ClearColumn] *)
Definition ClearColumn (column : Z) (r : ROW) : result ROW :=
  if size r <=? column then Thrown E_INVALIDARG r
  else ClearCell column r.

End Row.

(** [std::iota(_indices, _indices + n, uint16_t{0})] *)
Definition iota (n : Z) (l : list Z) : option (list Z) :=
  if (0 <=? n) && (n <=? Z.of_nat (length l))
  then Some (map (fun i => u16 (Z.of_nat i)) (seq 0 (Z.to_nat n))
             ++ skipn (Z.to_nat n) l)
  else None.

(** [ROW::Replace(uint16_t beginIndex, uint16_t endIndex, const TextAttribute&)] *)
Definition Replace_attr (beginIndex endIndex : Z) (newAttr : TextAttribute)
  (r : ROW) : ROW :=
  with_attr r (rle.replace (Z.to_nat beginIndex) (Z.to_nat endIndex) newAttr
                           (_attr r)).

(** [ROW::Reset] *)
Definition Reset (Attr : TextAttribute) (r : ROW) : result ROW :=
  used <- access (index_at r (_indicesCount r)) ;;
  c <- access (wmemset (_chars r) UNICODE_SPACE used) ;;
  i <- access (iota (_indicesCount r + 1) (_indices r)) ;;
  Done (mkROW c (_charsCapacity r) i (_indicesCount r)
              (rle.replace 0 (rle.size (_attr r)) Attr (_attr r))
              SingleWidth false false).

(** ** Readers *)

(** A [std::wstring_view] into [_chars]: first code unit and length. *)
Record wstring_view : Type := mkView { data : Z; length_ : Z }.

(** The code units a view denotes, when it lies inside the allocation. *)
Definition view_text (r : ROW) (v : wstring_view) : option (list Z) :=
  option_map bytes_wstr (load_bytes (_chars r) (2 * data v) (2 * length_ v)).

(** [ROW::GlyphAt] *)
Definition GlyphAt (column : Z) (r : ROW) : option wstring_view :=
  let column := Z.min column (usize (_indicesCount r - 1)) in
  match index_at r column with
  | None => None
  | Some lhs =>
      match scan_ne lhs (skipn (Z.to_nat (column + 1)) (_indices r)) (column + 1) with
      | None => None
      | Some (rhs, _) => Some (mkView lhs (usize (rhs - lhs)))
      end
  end.

Inductive DbcsAttribute : Type :=
| Single
| Leading
| Trailing.

Definition IsSingle (a : DbcsAttribute) : bool :=
  match a with Single => true | _ => false end.
Definition IsLeading (a : DbcsAttribute) : bool :=
  match a with Leading => true | _ => false end.
Definition IsTrailing (a : DbcsAttribute) : bool :=
  match a with Trailing => true | _ => false end.

(** [ROW::DbcsAttrAt] *)
Definition DbcsAttrAt (column : Z) (r : ROW) : option DbcsAttribute :=
  let column := Z.min column (usize (_indicesCount r - 1)) in
  match index_at r column with
  | None => None
  | Some idx =>
      if 0 <? column then
        match index_at r (column - 1) with
        | None => None
        | Some p =>
            if p =? idx then Some Trailing
            else if column <? _indicesCount r then
              match index_at r (column + 1) with
              | None => None
              | Some q => Some (if q =? idx then Leading else Single)
              end
            else Some Single
        end
      else if column <? _indicesCount r then
        match index_at r (column + 1) with
        | None => None
        | Some q => Some (if q =? idx then Leading else Single)
        end
      else Some Single
  end.

(** [ROW::GetText] *)
Definition GetText (r : ROW) : wstring_view := mkView 0 (_indicesCount r).

(** [ROW::ContainsText]: [wmemchr(_chars, L' ', _indices[_indicesCount]) != nullptr] *)
Definition ContainsText (r : ROW) : option bool :=
  match index_at r (_indicesCount r) with
  | None => None
  | Some used =>
      option_map (existsb (fun c => c =? UNICODE_SPACE))
                 (view_text r (mkView 0 used))
  end.

(** [ROW::GetAttrByColumn] *)
Definition GetAttrByColumn (column : Z) (r : ROW) : option TextAttribute :=
  rle.at_ (_attr r) (Z.to_nat column).

(** ** The cell writer *)

Inductive TextAttributeBehavior : Type :=
| Stored
| Current
| StoredOnly.

Definition behavior_eqb (a b : TextAttributeBehavior) : bool :=
  match a, b with
  | Stored, Stored | Current, Current | StoredOnly, StoredOnly => true
  | _, _ => false
  end.

(** What an [OutputCellIterator] yields ([OutputCellView]). *)
Record OutputCellView : Type := mkCell {
  Chars : list Z;
  DbcsAttr : DbcsAttribute;
  TextAttr : TextAttribute;
  TextAttrBehavior : TextAttributeBehavior
}.

(** The iterator is the sequence of cells it has yet to yield; it converts
    to [true] while that sequence is not empty. *)
Definition OutputCellIterator : Type := list OutputCellView.

(** The locals of [ROW::WriteCells] together with the row. *)
Record writer : Type := mkWriter {
  row : ROW;
  it : OutputCellIterator;
  currentColor : TextAttribute;
  colorUses : Z;
  colorStarts : Z;
  currentIndex : Z
}.

Section Writer.

Variable uninit : nat -> Z.

(** [ROW::Replace(size_t x, DbcsAttribute attr, const std::wstring_view& chars)] *)
Definition Replace_dbcs (x : Z) (attr : DbcsAttribute) (chars : list Z)
  (r : ROW) : result ROW :=
  let x := if IsTrailing attr && (0 <? x) then x - 1 else x in
  Replace uninit x (if IsSingle attr then 1 else 2) chars r.

(** One turn of the [while] loop of [ROW::WriteCells], entered with the
    cell [c] under the iterator. *)
Definition WriteCells_body (wrap : option bool) (finalColumnInRow : Z)
  (c : OutputCellView) (w : writer) : result writer :=
  (* the colour *)
  let w :=
    if behavior_eqb (TextAttrBehavior c) Current then w
    else if currentColor w =? TextAttr c then
      mkWriter (row w) (it w) (currentColor w) (u16 (colorUses w + 1))
               (colorStarts w) (currentIndex w)
    else
      mkWriter (Replace_attr (colorStarts w) (currentIndex w)
                             (currentColor w) (row w))
               (it w) (TextAttr c) 1 (currentIndex w) (currentIndex w) in
  (* the text *)
  w <- (if behavior_eqb (TextAttrBehavior c) StoredOnly then
          Done (mkWriter (row w) (tl (it w)) (currentColor w) (colorUses w)
                         (colorStarts w) (currentIndex w))
        else
          let fillingLastColumn := currentIndex w =? finalColumnInRow in
          ' (r, i) <-
            (if (currentIndex w =? 0) && IsTrailing (DbcsAttr c) then
               r <- ClearCell uninit (currentIndex w) (row w) ;;
               Done (r, it w)
             else if fillingLastColumn && IsLeading (DbcsAttr c) then
               r <- ClearCell uninit (currentIndex w) (row w) ;;
               Done (SetDoubleBytePadded true r, it w)
             else
               r <- Replace_dbcs (currentIndex w) (DbcsAttr c) (Chars c) (row w) ;;
               Done (r, tl (it w))) ;;
          let r := match wrap with
                   | Some v => if fillingLastColumn then SetWrapForced v r else r
                   | None => r
                   end in
          Done (mkWriter r i (currentColor w) (colorUses w)
                         (colorStarts w) (currentIndex w))) ;;
  Done (mkWriter (row w) (it w) (currentColor w) (colorUses w)
                 (colorStarts w) (u16 (currentIndex w + 1))).

(** The loop [while (it && currentIndex <= finalColumnInRow)]; [columns]
    bounds the turns left, one per column up to [finalColumnInRow]. *)
Fixpoint WriteCells_loop (columns : nat) (wrap : option bool)
  (finalColumnInRow : Z) (w : writer) : result writer :=
  match columns with
  | O => Done w
  | S columns' =>
      match it w with
      | [] => Done w
      | c :: _ =>
          if currentIndex w <=? finalColumnInRow then
            w <- WriteCells_body wrap finalColumnInRow c w ;;
            WriteCells_loop columns' wrap finalColumnInRow w
          else Done w
      end
  end.

(** The locals as the loop is entered.  [it->TextAttr()] is read even
    when the iterator is exhausted; the value is then never used. *)
Definition WriteCells_begin (i : OutputCellIterator) (index : Z) (r : ROW)
  : writer :=
  mkWriter r i (match i with c :: _ => TextAttr c | [] => 0 end)
           0 (u16 index) (u16 index).

(** The commit of the final colour after the loop, and the return. *)
Definition WriteCells_end (w : writer) : ROW * OutputCellIterator :=
  (if colorUses w =? 0 then row w
   else Replace_attr (colorStarts w) (currentIndex w) (currentColor w) (row w),
   it w).

Definition finalColumn (limitRight : option Z) (r : ROW) : Z :=
  match limitRight with Some l => l | None => usize (size r - 1) end.

(** [ROW::WriteCells]: the row after the call and the iterator returned. *)
Definition WriteCells (i : OutputCellIterator) (index : Z)
  (wrap : option bool) (limitRight : option Z) (r : ROW)
  : result (ROW * OutputCellIterator) :=
  if size r <=? index then Thrown E_INVALIDARG r else
  if size r <=? match limitRight with Some l => l | None => 0 end
  then Thrown E_INVALIDARG r else
  let finalColumnInRow := finalColumn limitRight r in
  w <- WriteCells_loop (Z.to_nat (finalColumnInRow + 1 - u16 index))
                       wrap finalColumnInRow (WriteCells_begin i index r) ;;
  Done (WriteCells_end w).

End Writer.

(** The blank row of a given width: blank text, identity offsets, one run
    of the fill attribute, flags cleared.  [Reset] maps it to itself. *)
Definition blank_row (rowWidth : Z) (fillAttribute : TextAttribute) : ROW :=
  mkROW (wstr_bytes (repeat UNICODE_SPACE (Z.to_nat rowWidth))) rowWidth
        (map (fun i => u16 (Z.of_nat i)) (seq 0 (Z.to_nat (rowWidth + 1))))
        rowWidth
        (rle.compress (repeat fillAttribute (Z.to_nat rowWidth)))
        SingleWidth false false.


(** ** Observations used in the statements *)

Fixpoint non_decreasing (l : list Z) : bool :=
  match l with
  | a :: (b :: _) as l' => (a <=? b) && non_decreasing l'
  | _ => true
  end.

(** The text of the glyph under a column. *)
Definition glyph_text (column : Z) (r : ROW) : option (list Z) :=
  match GlyphAt column r with
  | Some v => view_text r v
  | None => None
  end.

(** The text [GetText] denotes. *)
Definition full_text (r : ROW) : option (list Z) := view_text r (GetText r).

(** A heap that hands out zeroed memory, for the closed examples. *)
Definition zero_heap : nat -> Z := fun _ => 0.


(** Two rows with the same text store: buffer, capacity, offsets, width. *)
Definition same_text (r s : ROW) : Prop :=
  _chars r = _chars s /\ _charsCapacity r = _charsCapacity s
  /\ _indices r = _indices s /\ _indicesCount r = _indicesCount s.


(** [ROW::ROW]: the row takes the caller's buffer of [rowWidth] code units
    and table of [rowWidth + 1] offsets as they are, leaves [_attr]
    default-constructed (no run) and calls [Reset]. *)
Definition ROW_ctor (buffer : list Z) (indices : list Z) (rowWidth : Z)
  (fillAttribute : TextAttribute) : result ROW :=
  Reset fillAttribute
        (mkROW buffer rowWidth indices rowWidth [] SingleWidth false false).

(** ** Rows the code can reach *)

(** The shape every row keeps: a width that came from an [unsigned short],
    an offset table of [width + 1] entries of 16 bits, and a buffer of
    [_charsCapacity] code units that holds at least one per column. *)
Record consistent (r : ROW) : Prop := mkConsistent {
  width_range : 0 < _indicesCount r <= 65535;
  table_length : Z.of_nat (length (_indices r)) = _indicesCount r + 1;
  table_range : Forall (fun v => 0 <= v < 2 ^ 16) (_indices r);
  capacity_range : _indicesCount r <= _charsCapacity r < 2 ^ 18;
  buffer_length : Z.of_nat (length (_chars r)) = 2 * _charsCapacity r
}.

(** A text argument lies in memory: it is far shorter than the address
    space. *)
Definition fits (chars : list Z) : Prop := Z.of_nat (length chars) < 2 ^ 61.

(** What an outcome leaves behind: a result that satisfies [Q] when the
    call returns, a row that satisfies [P] when it throws. *)
Definition leaves {A : Type} (Q : A -> Prop) (P : ROW -> Prop)
  (m : result A) : Prop :=
  match m with
  | Done a => Q a
  | Thrown _ s => P s
  | Undefined => True
  end.

(** The texts of the cells left in the iterator all satisfy [F]. *)
Definition cells_ok (F : list Z -> Prop) (i : OutputCellIterator) : Prop :=
  Forall (fun c => F (Chars c)) i.

(** The cells left in the iterator all carry texts that lie in memory. *)
Definition cells_fit (i : OutputCellIterator) : Prop := cells_ok fits i.

(** The locals of the cell writer: the row satisfies [P], the texts to
    come satisfy [F]. *)
Definition writer_ok (P : ROW -> Prop) (F : list Z -> Prop) (w : writer)
  : Prop :=
  P (row w) /\ cells_ok F (it w).

(** The row a call ends in, by returning or by throwing. *)
Definition ends_in {A : Type} (row_of : A -> ROW) (m : result A) (r' : ROW)
  : Prop :=
  match m with
  | Done a => row_of a = r'
  | Thrown _ s => s = r'
  | Undefined => False
  end.

Section Reachable.

Variable uninit : nat -> Z.

(** The rows reached from a blank row, or from the constructor called with
    a buffer and a table of the sizes it expects, by the public operations,
    whether they return or throw. *)
Inductive reachable : ROW -> Prop :=
| reach_blank rowWidth fillAttribute :
    0 < rowWidth <= 65535 -> reachable (blank_row rowWidth fillAttribute)
| reach_ctor buffer indices rowWidth fillAttribute :
    0 < rowWidth <= 65535 ->
    Z.of_nat (length buffer) = 2 * rowWidth ->
    Z.of_nat (length indices) = rowWidth + 1 ->
    Forall (fun v => 0 <= v < 2 ^ 16) indices ->
    forall r', ends_in id (ROW_ctor buffer indices rowWidth fillAttribute) r' ->
    reachable r'
| reach_Reset r Attr :
    reachable r -> forall r', ends_in id (Reset Attr r) r' -> reachable r'
| reach_Replace r x width chars :
    reachable r -> fits chars ->
    forall r', ends_in id (Replace uninit x width chars r) r' ->
    reachable r'
| reach_ClearColumn r column :
    reachable r ->
    forall r', ends_in id (ClearColumn uninit column r) r' -> reachable r'
| reach_WriteCells r i index wrap limitRight :
    reachable r -> cells_fit i ->
    forall r', ends_in fst (WriteCells uninit i index wrap limitRight r) r' ->
    reachable r'
| reach_Replace_attr r b e a :
    reachable r -> reachable (Replace_attr b e a r)
| reach_SetWrapForced r v :
    reachable r -> reachable (SetWrapForced v r)
| reach_SetDoubleBytePadded r v :
    reachable r -> reachable (SetDoubleBytePadded v r).

End Reachable.

(** ** Measuring and classifying the text *)

(** [_chars[i]], one code unit. *)
Definition char_at (r : ROW) (i : Z) : option Z :=
  match load_bytes (_chars r) (2 * i) 2 with
  | Some [lo; hi] => Some (lo + 256 * hi)
  | _ => None
  end.

(** The loop of [ROW::MeasureLeft]: [it] runs up to [end], [n] code units
    away, and stops at the first code unit that is not a blank. *)
Fixpoint MeasureLeft_loop (r : ROW) (it : Z) (n : nat) : option Z :=
  match n with
  | O => Some it
  | S n' =>
      match char_at r it with
      | None => None
      | Some c =>
          if c =? UNICODE_SPACE then MeasureLeft_loop r (it + 1) n'
          else Some it
      end
  end.

(** [ROW::MeasureLeft] *)
Definition MeasureLeft (r : ROW) : option Z :=
  match index_at r (_indicesCount r) with
  | None => None
  | Some used => MeasureLeft_loop r 0 (Z.to_nat used)
  end.

(** The loop of [ROW::MeasureRight]: [it] runs down to [beg], which is
    never read. *)
Fixpoint MeasureRight_loop (r : ROW) (it : nat) : option Z :=
  match it with
  | O => Some 0
  | S it' =>
      match char_at r (Z.of_nat it) with
      | None => None
      | Some c =>
          if c =? UNICODE_SPACE then MeasureRight_loop r it'
          else Some (Z.of_nat it)
      end
  end.

(** [ROW::MeasureRight]; with no code unit in use [end - 1] lies before the
    buffer. *)
Definition MeasureRight (r : ROW) : option Z :=
  match index_at r (_indicesCount r) with
  | None => None
  | Some used =>
      if used <=? 0 then None
      else MeasureRight_loop r (Z.to_nat (used - 1))
  end.

Inductive DelimiterClass : Type :=
| ControlChar
| DelimiterChar
| RegularChar.

(** [ROW::DelimiterClassAt] *)
Definition DelimiterClassAt (column : Z) (wordDelimiters : list Z) (r : ROW)
  : option DelimiterClass :=
  let column := Z.min column (usize (_indicesCount r - 1)) in
  match index_at r column with
  | None => None
  | Some i =>
      match char_at r i with
      | None => None
      | Some glyph =>
          Some (if glyph <=? UNICODE_SPACE then ControlChar
                else if existsb (Z.eqb glyph) wordDelimiters then DelimiterChar
                else RegularChar)
      end
  end.

(** ** The iterator over the glyphs of the row *)

(** [RowTextIterator]: the columns [_beg] to [_end] of one glyph; the
    pointers to the buffer and the table are those of the row. *)
Record RowTextIterator : Type := mkIterator { _beg : Z; _end : Z }.

(** The loop [while (_end < _cols && _indices[++_end] == current)], with
    [n] columns left up to [_cols]. *)
Fixpoint run_end (r : ROW) (current : Z) (e : Z) (n : nat) : option Z :=
  match n with
  | O => Some e
  | S n' =>
      match index_at r (e + 1) with
      | None => None
      | Some v => if v =? current then run_end r current (e + 1) n'
                  else Some (e + 1)
      end
  end.

(** [RowTextIterator::operator++] *)
Definition RowTextIterator_incr (r : ROW) (i : RowTextIterator)
  : option RowTextIterator :=
  match index_at r (_end i) with
  | None => None
  | Some current =>
      match run_end r current (_end i) (Z.to_nat (_indicesCount r - _end i)) with
      | None => None
      | Some e => Some (mkIterator (_end i) e)
      end
  end.

(** The constructor, which advances once. *)
Definition RowTextIterator_ctor (r : ROW) (beg end_ : Z)
  : option RowTextIterator :=
  RowTextIterator_incr r (mkIterator beg end_).

(** [ROW::CharsBegin] and [ROW::CharsEnd] *)
Definition CharsBegin (r : ROW) : option RowTextIterator :=
  RowTextIterator_ctor r 0 0.
Definition CharsEnd (r : ROW) : option RowTextIterator :=
  RowTextIterator_ctor r (_indicesCount r) (_indicesCount r).

(** [RowTextIterator::operator==] *)
Definition RowTextIterator_eqb (a b : RowTextIterator) : bool :=
  _beg a =? _beg b.

(** [RowTextIterator::Text] *)
Definition Text (r : ROW) (i : RowTextIterator) : option wstring_view :=
  match index_at r (_beg i), index_at r (_end i) with
  | Some b, Some e => Some (mkView b (usize (e - b)))
  | _, _ => None
  end.

(** [RowTextIterator::Cols]; for the widths a row can have the difference
    fits [til::CoordType]. *)
Definition Cols (i : RowTextIterator) : Z := _end i - _beg i.

(** [RowTextIterator::DbcsAttr] *)
Definition DbcsAttr_of (i : RowTextIterator) : DbcsAttribute :=
  if Cols i =? 2 then Leading else Single.

(** What [for (it = CharsBegin(); !(it == CharsEnd()); ++it)] visits;
    [n] bounds the number of glyphs. *)
Fixpoint CharsRange_loop (r : ROW) (i e : RowTextIterator) (n : nat)
  : option (list RowTextIterator) :=
  if RowTextIterator_eqb i e then Some []
  else
    match n with
    | O => None
    | S n' =>
        match RowTextIterator_incr r i with
        | None => None
        | Some i' => option_map (cons i) (CharsRange_loop r i' e n')
        end
    end.

Definition CharsRange (r : ROW) : option (list RowTextIterator) :=
  match CharsBegin r, CharsEnd r with
  | Some b, Some e => CharsRange_loop r b e (Z.to_nat (_indicesCount r))
  | _, _ => None
  end.

(** The code units in use, [_chars[0 .. _indices[_indicesCount])]. *)
Definition used_length (r : ROW) : option Z := index_at r (_indicesCount r).

(** The code units in use lie inside the buffer. *)
Definition used_fits (r : ROW) : Prop :=
  exists used, used_length r = Some used /\ used <= _charsCapacity r.

(** The parts of the row that the text operations leave alone. *)
Definition same_frame (r s : ROW) : Prop :=
  _attr r = _attr s /\ _lineRendition r = _lineRendition s
  /\ _wrapForced r = _wrapForced s
  /\ _doubleBytePadded r = _doubleBytePadded s
  /\ _indicesCount r = _indicesCount s.

(** Sources used in the examples: four letters, each one column wide, and
    two letters that keep the colour of their columns. *)
Definition four_letters : OutputCellIterator :=
  [mkCell [97] Single 1 Stored; mkCell [98] Single 1 Stored;
   mkCell [99] Single 1 Stored; mkCell [100] Single 1 Stored].

Definition two_letters_current : OutputCellIterator :=
  [mkCell [97] Single 1 Current; mkCell [98] Single 2 Current].

(** A glyph as the iterator presents it: columns [_beg] to [_end] inside
    the row that share one offset, with a different offset on either side
    (unless the row ends there). *)
Definition is_glyph_run (r : ROW) (i : RowTextIterator) : Prop :=
  0 <= _beg i < _end i /\ _end i <= _indicesCount r
  /\ (forall j, _beg i <= j < _end i -> index_at r j = index_at r (_beg i))
  /\ (_end i < _indicesCount r -> index_at r (_end i) <> index_at r (_beg i))
  /\ (0 < _beg i -> index_at r (_beg i - 1) <> index_at r (_beg i)).

(** The runs of [l] follow one another from column [from] to column [to]. *)
Fixpoint tiles (l : list RowTextIterator) (from to : Z) : Prop :=
  match l with
  | [] => from = to
  | i :: l' => _beg i = from /\ tiles l' (_end i) to
  end.
(** * Basic facts *)

Section Facts.

Variable uninit : nat -> Z.

Lemma bind_Thrown {A B : Type} (m : result A) (k : A -> result B) e s :
  bind m k = Thrown e s ->
  m = Thrown e s \/ exists a, m = Done a /\ k a = Thrown e s.
Proof.
  destruct m; simpl; intros H;
    [right; eauto | left; inversion H; reflexivity | discriminate].
Qed.

Lemma access_not_Thrown {A : Type} (o : option A) e (s : ROW) :
  @access ROW A o <> Thrown e s.
Proof. destruct o; discriminate. Qed.

Lemma Replace_move_Thrown lhs rhs n diff cur r e s :
  Replace_move uninit lhs rhs n diff cur r = Thrown e s -> e = bad_alloc /\ s = r.
Proof.
  unfold Replace_move. intros H.
  destruct (_ <=? _).
  - apply bind_Thrown in H as [H | (c & _ & H)];
      [exfalso; eapply access_not_Thrown; eauto | discriminate].
  - destruct (alloc_max <? _); [inversion H; auto|].
    apply bind_Thrown in H as [H | (c & _ & H)];
      [exfalso; eapply access_not_Thrown; eauto|].
    apply bind_Thrown in H as [H | (c' & _ & H)];
      [exfalso; eapply access_not_Thrown; eauto | discriminate].
Qed.

Lemma Replace_shift_Thrown lhs rhs n x2 r e s :
  Replace_shift uninit lhs rhs n x2 r = Thrown e s -> e = bad_alloc /\ s = r.
Proof.
  unfold Replace_shift. intros H.
  destruct (_ =? 0); [discriminate|].
  apply bind_Thrown in H as [H | (cur & _ & H)];
    [exfalso; eapply access_not_Thrown; eauto|].
  apply bind_Thrown in H as [H | (r2 & _ & H)].
  - eapply Replace_move_Thrown; eauto.
  - apply bind_Thrown in H as [H | (i & _ & H)];
      [exfalso; eapply access_not_Thrown; eauto | discriminate].
Qed.

(** [Replace] throws nothing but [bad_alloc], and then before any change. *)
Lemma Replace_Thrown x width chars r e s :
  Replace uninit x width chars r = Thrown e s -> e = bad_alloc /\ s = r.
Proof.
  unfold Replace. destruct chars as [|ch chars]; [discriminate|].
  intros H.
  apply bind_Thrown in H as [H | (lhs & _ & H)];
    [exfalso; eapply access_not_Thrown; eauto|].
  apply bind_Thrown in H as [H | ([rhs x2] & _ & H)];
    [exfalso; eapply access_not_Thrown; eauto|].
  cbv beta iota zeta in H.
  apply bind_Thrown in H as [H | (r1 & _ & H)].
  - eapply Replace_shift_Thrown; eauto.
  - apply bind_Thrown in H as [H | (c & _ & H)];
      [exfalso; eapply access_not_Thrown; eauto|].
    apply bind_Thrown in H as [H | (i & _ & H)];
      [exfalso; eapply access_not_Thrown; eauto | discriminate].
Qed.


Lemma bind_Done {A B : Type} (m : result A) (k : A -> result B) b :
  bind m k = Done b -> exists a, m = Done a /\ k a = Done b.
Proof. destruct m; simpl; intros H; [eauto | discriminate | discriminate]. Qed.

Lemma access_Done {A : Type} (o : option A) a :
  @access ROW A o = Done a -> o = Some a.
Proof. destruct o; simpl; intros H; [inversion H; reflexivity | discriminate]. Qed.

(** *** The offset table *)

Lemma index_at_nth r i :
  0 <= i -> index_at r i = nth_error (_indices r) (Z.to_nat i).
Proof. intros H. unfold index_at. apply Z.leb_le in H. now rewrite H. Qed.

Lemma update_range_length f lo hi l l' :
  update_range f lo hi l = Some l' -> length l' = length l.
Proof.
  unfold update_range.
  destruct ((0 <=? lo) && (lo <=? hi) && (hi <=? Z.of_nat (length l))) eqn:E;
    [|discriminate].
  intros H; inversion H; subst; clear H.
  apply andb_prop in E as [E E3]. apply andb_prop in E as [E1 E2].
  apply Z.leb_le in E1, E2, E3.
  rewrite !length_app, length_map, !length_firstn, !length_skipn. lia.
Qed.

Lemma update_range_bounds f lo hi l l' :
  update_range f lo hi l = Some l' ->
  0 <= lo <= hi /\ hi <= Z.of_nat (length l).
Proof.
  unfold update_range.
  destruct ((0 <=? lo) && (lo <=? hi) && (hi <=? Z.of_nat (length l))) eqn:E;
    [|discriminate].
  intros _.
  apply andb_prop in E as [E E3]. apply andb_prop in E as [E1 E2].
  apply Z.leb_le in E1, E2, E3. lia.
Qed.

Lemma update_range_nth f lo hi l l' (i : nat) :
  update_range f lo hi l = Some l' ->
  nth_error l' i =
    if (lo <=? Z.of_nat i) && (Z.of_nat i <? hi)
    then option_map f (nth_error l i) else nth_error l i.
Proof.
  intros H. pose proof (update_range_bounds _ _ _ _ _ H) as B.
  unfold update_range in H.
  destruct ((0 <=? lo) && (lo <=? hi) && (hi <=? Z.of_nat (length l)));
    [|discriminate].
  inversion H; subst; clear H.
  destruct (Z.of_nat i <? lo) eqn:E1.
  - apply Z.ltb_lt in E1.
    replace (lo <=? Z.of_nat i) with false by (symmetry; apply Z.leb_gt; lia).
    simpl. rewrite nth_error_app1 by (rewrite length_firstn; lia).
    rewrite nth_error_firstn.
    replace (i <? Z.to_nat lo)%nat with true
      by (symmetry; apply Nat.ltb_lt; lia).
    reflexivity.
  - apply Z.ltb_ge in E1.
    replace (lo <=? Z.of_nat i) with true by (symmetry; apply Z.leb_le; lia).
    simpl.
    rewrite nth_error_app2 by (rewrite length_firstn; lia).
    rewrite length_firstn.
    replace (Nat.min (Z.to_nat lo) (length l)) with (Z.to_nat lo) by lia.
    destruct (Z.of_nat i <? hi) eqn:E2.
    + apply Z.ltb_lt in E2.
      rewrite nth_error_app1
        by (rewrite length_map, length_firstn, length_skipn; lia).
      rewrite nth_error_map, nth_error_firstn, nth_error_skipn.
      replace (i - Z.to_nat lo <? Z.to_nat (hi - lo))%nat with true
        by (symmetry; apply Nat.ltb_lt; lia).
      replace (Z.to_nat lo + (i - Z.to_nat lo))%nat with i by lia.
      reflexivity.
    + apply Z.ltb_ge in E2.
      rewrite nth_error_app2
        by (rewrite length_map, length_firstn, length_skipn; lia).
      rewrite length_map, length_firstn, length_skipn, nth_error_skipn.
      f_equal. lia.
Qed.

Lemma skipn_nth_error_cons {A : Type} (l : list A) n a :
  nth_error l n = Some a -> skipn n l = a :: skipn (S n) l.
Proof.
  revert l; induction n as [|n IH]; intros [|b l] H; try discriminate.
  - simpl in H. inversion H. reflexivity.
  - simpl in H. apply IH in H. exact H.
Qed.

(** The scan stops inside the table, at the first entry that differs. *)
Lemma scan_ne_Some lhs l x rhs x' :
  scan_ne lhs l x = Some (rhs, x') ->
  x <= x' < x + Z.of_nat (length l) /\ rhs <> lhs.
Proof.
  revert x; induction l as [|a l IH]; intros x H; [discriminate|].
  simpl in H. destruct (a =? lhs) eqn:E.
  - apply IH in H. simpl length. lia.
  - inversion H; subst. apply Z.eqb_neq in E. simpl length. lia.
Qed.

Lemma Replace_move_indices lhs rhs n diff cur r r' :
  Replace_move uninit lhs rhs n diff cur r = Done r' ->
  _indices r' = _indices r /\ _indicesCount r' = _indicesCount r.
Proof.
  unfold Replace_move. intros H.
  destruct (_ <=? _).
  - apply bind_Done in H as (c & _ & H). inversion H; subst. auto.
  - destruct (alloc_max <? _); [discriminate|].
    apply bind_Done in H as (c & _ & H).
    apply bind_Done in H as (c' & _ & H). inversion H; subst. auto.
Qed.

Lemma Replace_shift_indices lhs rhs n x2 r r' :
  Replace_shift uninit lhs rhs n x2 r = Done r' ->
  _indicesCount r' = _indicesCount r
  /\ length (_indices r') = length (_indices r)
  /\ forall i : nat, Z.of_nat i < x2 ->
       nth_error (_indices r') i = nth_error (_indices r) i.
Proof.
  unfold Replace_shift. intros H.
  destruct (_ =? 0).
  - inversion H; subst. auto.
  - apply bind_Done in H as (cur & _ & H).
    apply bind_Done in H as (r1 & Hm & H).
    apply bind_Done in H as (i1 & Hu & H).
    apply access_Done in Hu.
    apply Replace_move_indices in Hm as [Hi Hc].
    inversion H; subst; clear H. simpl.
    rewrite Hi in Hu. repeat split; [exact Hc | |].
    + eapply update_range_length; eauto.
    + intros i Hlt. erewrite update_range_nth by eauto.
      replace (x2 <=? Z.of_nat i) with false by (symmetry; apply Z.leb_gt; lia).
      reflexivity.
Qed.

(** What a completed [Replace] does to the offset table: the columns from
    the clamped [x] up to where the scan stopped all carry the old offset of
    the first of them, and the columns before are untouched. *)
Lemma Replace_indices x width chars r r' :
  chars <> [] ->
  Replace uninit x width chars r = Done r' ->
  let x1 := Z.min x (_indicesCount r) in
  exists lhs x2,
    index_at r x1 = Some lhs
    /\ 0 <= x1
    /\ Z.min (usize (x1 + width)) (_indicesCount r) <= x2
    /\ x2 <= Z.of_nat (length (_indices r))
    /\ _indicesCount r' = _indicesCount r
    /\ length (_indices r') = length (_indices r)
    /\ (forall i, x1 <= i < x2 -> index_at r' i = Some lhs)
    /\ (forall i, 0 <= i < x1 -> index_at r' i = index_at r i).
Proof.
  intros Hne H x1. unfold Replace in H.
  destruct chars as [|ch chars]; [congruence|].
  fold x1 in H.
  apply bind_Done in H as (lhs & Hl & H). apply access_Done in Hl.
  apply bind_Done in H as ([rhs x2] & Hs & H). apply access_Done in Hs.
  cbv beta iota zeta in H.
  apply bind_Done in H as (r1 & Hsh & H).
  apply bind_Done in H as (c & _ & H).
  apply bind_Done in H as (i1 & Hu & H). apply access_Done in Hu.
  inversion H; subst r'; clear H. simpl.
  apply Replace_shift_indices in Hsh as (Hc & Hlen & Hpre).
  pose proof (update_range_bounds _ _ _ _ _ Hu) as B.
  pose proof (update_range_length _ _ _ _ _ Hu) as L.
  apply scan_ne_Some in Hs as [Hs _].
  exists lhs, x2. repeat split; try lia; try congruence.
  - intros i Hi. unfold index_at; simpl.
    replace (0 <=? i) with true by (symmetry; apply Z.leb_le; lia).
    erewrite update_range_nth by eauto.
    replace (x1 <=? Z.of_nat (Z.to_nat i)) with true
      by (symmetry; apply Z.leb_le; lia).
    replace (Z.of_nat (Z.to_nat i) <? x2) with true
      by (symmetry; apply Z.ltb_lt; lia).
    simpl.
    destruct (nth_error (_indices r1) (Z.to_nat i)) eqn:E; [reflexivity|].
    apply nth_error_None in E. lia.
  - intros i Hi. unfold index_at; simpl.
    replace (0 <=? i) with true by (symmetry; apply Z.leb_le; lia).
    erewrite update_range_nth by eauto.
    replace (x1 <=? Z.of_nat (Z.to_nat i)) with false
      by (symmetry; apply Z.leb_gt; lia).
    simpl. apply Hpre. lia.
Qed.

(** *** Machine integers in range *)

Lemma two_64 : 2 ^ 64 = 18446744073709551616.
Proof. reflexivity. Qed.

Lemma two_16 : 2 ^ 16 = 65536.
Proof. reflexivity. Qed.

Lemma usize_small z : 0 <= z < 2 ^ 64 -> usize z = z.
Proof. intros H. unfold usize. now apply Z.mod_small. Qed.

Lemma u16_small z : 0 <= z < 2 ^ 16 -> u16 z = z.
Proof. intros H. unfold u16. now apply Z.mod_small. Qed.

Lemma index_at_Some r i :
  0 <= i < Z.of_nat (length (_indices r)) -> exists a, index_at r i = Some a.
Proof.
  intros H. rewrite index_at_nth by lia.
  destruct (nth_error (_indices r) (Z.to_nat i)) eqn:E; [eauto|].
  apply nth_error_None in E. lia.
Qed.

(** *** Classification of a column by equality of offsets *)

Lemma DbcsAttrAt_classes r k :
  0 < size r <= 65535 ->
  Z.of_nat (length (_indices r)) = size r + 1 ->
  0 <= k < size r ->
  (DbcsAttrAt k r = Some Trailing
   <-> 0 < k /\ index_at r (k - 1) = index_at r k)
  /\ (DbcsAttrAt k r = Some Leading
      <-> ~ (0 < k /\ index_at r (k - 1) = index_at r k)
          /\ index_at r k = index_at r (k + 1)).
Proof.
  unfold size. intros Hw Hlen Hk. unfold DbcsAttrAt.
  rewrite usize_small by (rewrite two_64; lia).
  replace (Z.min k (_indicesCount r - 1)) with k by lia.
  destruct (index_at_Some r k) as [a Ha]; [lia|].
  destruct (index_at_Some r (k + 1)) as [q Hq]; [lia|].
  rewrite Ha, Hq.
  replace (k <? _indicesCount r) with true by (symmetry; apply Z.ltb_lt; lia).
  destruct (0 <? k) eqn:E0.
  - apply Z.ltb_lt in E0.
    destruct (index_at_Some r (k - 1)) as [p Hp]; [lia|].
    rewrite Hp.
    destruct (p =? a) eqn:Epa; [apply Z.eqb_eq in Epa | apply Z.eqb_neq in Epa];
      destruct (q =? a) eqn:Eqa;
      [apply Z.eqb_eq in Eqa | apply Z.eqb_neq in Eqa
       | apply Z.eqb_eq in Eqa | apply Z.eqb_neq in Eqa];
      intuition (try discriminate; try congruence; try lia).
  - apply Z.ltb_ge in E0.
    destruct (q =? a) eqn:Eqa;
      [apply Z.eqb_eq in Eqa | apply Z.eqb_neq in Eqa];
      intuition (try discriminate; try congruence; try lia).
Qed.

(** *** The text store does not look at the attributes *)


Lemma with_attr_same_text r a : same_text (with_attr r a) r.
Proof. unfold same_text, with_attr; cbn. auto. Qed.

Lemma same_text_refl r : same_text r r.
Proof. unfold same_text; auto. Qed.



(** *** The loop of the cell writer *)


Lemma bind_Done_r {A : Type} (m : result A) : bind m (fun a => Done a) = m.
Proof. destruct m; reflexivity. Qed.



(** *** Clearing a column that holds one code unit *)


(** *** Memory primitives keep the size of the allocation *)

Lemma store_bytes_length m off src m' :
  store_bytes m off src = Some m' -> length m' = length m.
Proof.
  unfold store_bytes.
  destruct ((0 <=? off) && (off + Z.of_nat (length src) <=? Z.of_nat (length m)))
    eqn:E; [|discriminate].
  intros H; inversion H; subst; clear H.
  apply andb_prop in E as [E1 E2]. apply Z.leb_le in E1, E2.
  rewrite !length_app, length_firstn, length_skipn. lia.
Qed.

Lemma memcpy_length dst doff src soff n m' :
  memcpy dst doff src soff n = Some m' -> length m' = length dst.
Proof.
  unfold memcpy. destruct (load_bytes src soff n); [|discriminate].
  apply store_bytes_length.
Qed.

Lemma wmemset_length m c n m' :
  wmemset m c n = Some m' -> length m' = length m.
Proof.
  unfold wmemset. destruct (0 <=? n); [|discriminate].
  apply store_bytes_length.
Qed.

Lemma operator_new_length bytes : length (operator_new uninit bytes) = Z.to_nat bytes.
Proof. unfold operator_new. now rewrite length_map, length_seq. Qed.

(** *** Entries of the offset table stay in 16 bits *)

Lemma Forall_firstn {A : Type} (P : A -> Prop) n (l : list A) :
  Forall P l -> Forall P (firstn n l).
Proof.
  intros H. revert n; induction H; intros [|n]; simpl; constructor; auto.
Qed.

Lemma Forall_skipn {A : Type} (P : A -> Prop) n (l : list A) :
  Forall P l -> Forall P (skipn n l).
Proof.
  intros H. revert n; induction H; intros [|n]; simpl; auto.
Qed.

Lemma update_range_Forall (P : Z -> Prop) f lo hi l l' :
  update_range f lo hi l = Some l' ->
  Forall P l -> (forall v, P v -> P (f v)) -> Forall P l'.
Proof.
  unfold update_range. destruct (_ && _); [|discriminate].
  intros H Hl Hf; inversion H; subst; clear H.
  apply Forall_app; split; [now apply Forall_firstn|].
  apply Forall_app; split; [|now apply Forall_skipn].
  apply Forall_map.
  eapply Forall_impl; [exact Hf|]. now apply Forall_firstn, Forall_skipn.
Qed.

Lemma u16_range z : 0 <= u16 z < 2 ^ 16.
Proof. unfold u16. apply Z.mod_pos_bound. reflexivity. Qed.

Lemma index_at_range r i v :
  Forall (fun v => 0 <= v < 2 ^ 16) (_indices r) ->
  index_at r i = Some v -> 0 <= v < 2 ^ 16.
Proof.
  intros HF H. unfold index_at in H. destruct (0 <=? i); [|discriminate].
  apply nth_error_In in H. rewrite Forall_forall in HF. now apply HF.
Qed.

Lemma usize_range z : 0 <= usize z < 2 ^ 64.
Proof. unfold usize. apply Z.mod_pos_bound. reflexivity. Qed.

Lemma usize_neg z : - 2 ^ 64 <= z < 0 -> usize z = z + 2 ^ 64.
Proof.
  intros H. unfold usize. symmetry.
  apply (Z.mod_unique z (2 ^ 64) (-1)); [left|]; rewrite two_64 in *; lia.
Qed.

Lemma usize_big z : 2 ^ 64 <= z < 2 * 2 ^ 64 -> usize z = z - 2 ^ 64.
Proof.
  intros H. unfold usize. symmetry.
  apply (Z.mod_unique z (2 ^ 64) 1); [left|]; rewrite two_64 in *; lia.
Qed.

(** *** The shape of the row is kept *)

Lemma consistent_with_chars r c cap :
  consistent r ->
  Z.of_nat (length c) = 2 * cap -> _indicesCount r <= cap < 2 ^ 18 ->
  consistent (with_chars r c cap).
Proof. intros [] Hl Hc. constructor; cbn; assumption. Qed.

Lemma consistent_with_indices r i :
  consistent r ->
  length i = length (_indices r) -> Forall (fun v => 0 <= v < 2 ^ 16) i ->
  consistent (with_indices r i).
Proof. intros [] Hl Hf. constructor; cbn; try assumption. lia. Qed.

Lemma consistent_same_text r s :
  same_text r s -> consistent r -> consistent s.
Proof.
  intros (Hc & Hcap & Hi & Hn) []. constructor; congruence.
Qed.

(** When the new length does not fit, either the allocation is refused or
    the new length is small: a length that has wrapped around asks for more
    than [alloc_max] bytes. *)
Lemma Replace_move_consistent lhs rhs n cur r :
  consistent r ->
  0 <= lhs < 2 ^ 16 -> 0 <= rhs < 2 ^ 16 -> 0 <= cur < 2 ^ 16 ->
  1 <= n < 2 ^ 61 ->
  leaves consistent consistent
         (Replace_move uninit lhs rhs n (usize (rhs - lhs - n)) cur r).
Proof.
  intros Hr Hlhs Hrhs Hcur Hn. unfold Replace_move.
  destruct (_ <=? _) eqn:Efit.
  - destruct (memmove _ _ _ _) as [c|] eqn:Em; cbn [access bind leaves]; [|exact I].
    apply consistent_with_chars; [exact Hr | | apply Hr].
    apply memcpy_length in Em. rewrite Em. apply Hr.
  - apply Z.leb_gt in Efit.
    destruct (alloc_max <? _) eqn:Ealloc; cbn [leaves]; [exact Hr|].
    apply Z.ltb_ge in Ealloc.
    pose proof (capacity_range r Hr) as Hcap.
    pose proof (width_range r Hr) as Hwid.
    set (cap := _charsCapacity r) in *.
    set (newLength := usize (cur + usize (rhs - lhs - n))) in *.
    assert (Hhalf : 0 <= Z.shiftr cap 1 <= cap).
    { rewrite Z.shiftr_div_pow2 by lia. change (2 ^ 1) with 2.
      split; [apply Z.div_pos; lia | apply Z.div_le_upper_bound; lia]. }
    assert (Hgrow : usize (cap + Z.shiftr cap 1) = cap + Z.shiftr cap 1).
    { apply usize_small. rewrite two_64. change (2 ^ 18) with 262144 in Hcap. lia. }
    rewrite Hgrow in *.
    assert (Hnew : newLength < 2 ^ 17).
    { unfold alloc_max in Ealloc. subst newLength.
      change (2 ^ 16) with 65536 in *. change (2 ^ 61) with 2305843009213693952 in *.
      change (2 ^ 18) with 262144 in *. change (2 ^ 17) with 131072.
      change (2 ^ 63 - 1) with 9223372036854775807 in Ealloc.
      destruct (Z_lt_le_dec (rhs - lhs - n) 0) as [Hd | Hd].
      - rewrite (usize_neg (rhs - lhs - n)) in * by (rewrite two_64; lia).
        destruct (Z_lt_le_dec (cur + (rhs - lhs - n)) 0) as [Hs | Hs].
        + exfalso.
          rewrite (usize_small (cur + (rhs - lhs - n + 2 ^ 64))) in *
            by (rewrite two_64; lia).
          rewrite Z.max_l in Ealloc by (rewrite two_64; lia).
          rewrite usize_big in Ealloc by (rewrite two_64; lia).
          rewrite two_64 in Ealloc. lia.
        + rewrite (usize_big (cur + (rhs - lhs - n + 2 ^ 64)))
            by (rewrite two_64; lia).
          rewrite two_64. lia.
      - rewrite (usize_small (rhs - lhs - n)) by (rewrite two_64; lia).
        rewrite usize_small by (rewrite two_64; lia). lia. }
    pose proof (usize_range (cur + usize (rhs - lhs - n))) as Hnl.
    fold newLength in Hnl.
    set (newCapacity := Z.max newLength (cap + Z.shiftr cap 1)) in *.
    assert (HnewCap : cap < newCapacity < 2 ^ 18).
    { subst newCapacity. change (2 ^ 17) with 131072 in Hnew.
      change (2 ^ 18) with 262144 in *. lia. }
    assert (Hbytes : usize (2 * newCapacity) = 2 * newCapacity).
    { apply usize_small. rewrite two_64. change (2 ^ 18) with 262144 in *. lia. }
    rewrite Hbytes.
    destruct (memcpy (operator_new uninit (2 * newCapacity)) 0 (_chars r) 0 lhs)
      as [c1|] eqn:E1; cbn [access bind leaves]; [|exact I].
    destruct (memcpy c1 _ _ _ _) as [c2|] eqn:E2; cbn [access bind leaves]; [|exact I].
    apply consistent_with_chars; [exact Hr | | lia].
    apply memcpy_length in E1, E2.
    rewrite E2, E1, operator_new_length. lia.
Qed.

Lemma leaves_bind {A B : Type} (Qa : A -> Prop) (Qb : B -> Prop)
  (P : ROW -> Prop) (m : result A) (k : A -> result B) :
  leaves Qa P m ->
  (forall a, m = Done a -> Qa a -> leaves Qb P (k a)) ->
  leaves Qb P (bind m k).
Proof. destruct m; cbn; auto. Qed.

Lemma leaves_access {A B : Type} (Qb : B -> Prop) (P : ROW -> Prop)
  (o : option A) (k : A -> result B) :
  (forall a, o = Some a -> leaves Qb P (k a)) ->
  leaves Qb P (bind (access o) k).
Proof. destruct o; cbn; auto. Qed.

Lemma Replace_shift_consistent lhs rhs n x2 r :
  consistent r ->
  0 <= lhs < 2 ^ 16 -> 0 <= rhs < 2 ^ 16 -> 1 <= n < 2 ^ 61 ->
  leaves consistent consistent (Replace_shift uninit lhs rhs n x2 r).
Proof.
  intros Hr Hlhs Hrhs Hn. unfold Replace_shift.
  destruct (_ =? 0); [exact Hr|].
  apply leaves_access. intros cur Hcur.
  apply (leaves_bind consistent).
  - apply Replace_move_consistent; try assumption.
    eapply index_at_range; [apply Hr | exact Hcur].
  - intros r1 _ Hr1.
    apply leaves_access. intros i Hi. cbn [leaves].
    apply consistent_with_indices; [exact Hr1 | |].
    + eapply update_range_length; eauto.
    + eapply update_range_Forall; [exact Hi | apply Hr1 |].
      intros v _. apply u16_range.
Qed.

Lemma scan_ne_In lhs l x rhs x' :
  scan_ne lhs l x = Some (rhs, x') -> In rhs l.
Proof.
  revert x; induction l as [|a l IH]; intros x H; [discriminate|].
  simpl in H. destruct (a =? lhs).
  - right. eapply IH; eauto.
  - inversion H; subst. now left.
Qed.

Lemma In_skipn {A : Type} (a : A) n l : In a (skipn n l) -> In a l.
Proof.
  revert l; induction n as [|n IH]; intros [|b l] H; simpl in *; auto.
Qed.

(** [Replace] keeps the shape of the row, whether it returns or throws. *)
Lemma Replace_consistent x width chars r :
  consistent r -> fits chars ->
  leaves consistent consistent (Replace uninit x width chars r).
Proof.
  intros Hr Hfit. unfold Replace.
  destruct chars as [|ch tl]; [exact Hr|].
  assert (Hn : 1 <= Z.of_nat (length (ch :: tl)) < 2 ^ 61).
  { unfold fits in Hfit. split; [cbn [length]; lia | exact Hfit]. }
  set (chars := ch :: tl) in *. clearbody chars.
  apply leaves_access. intros lhs Hlhs.
  apply leaves_access. intros [rhs x2] Hscan.
  pose proof (index_at_range _ _ _ (table_range r Hr) Hlhs) as Rl.
  assert (Rr : 0 <= rhs < 2 ^ 16).
  { apply scan_ne_In, In_skipn in Hscan.
    pose proof (table_range r Hr) as HF. rewrite Forall_forall in HF.
    now apply HF. }
  apply (leaves_bind consistent).
  - now apply Replace_shift_consistent.
  - intros r1 _ Hr1.
    apply leaves_access. intros c Hc.
    apply leaves_access. intros i Hi. cbn [leaves].
    apply consistent_with_indices.
    + apply consistent_with_chars; [exact Hr1 | | apply Hr1].
      apply memcpy_length in Hc. rewrite Hc. apply Hr1.
    + cbn. eapply update_range_length; eauto.
    + eapply update_range_Forall; [exact Hi | apply Hr1 |].
      intros v _. exact Rl.
Qed.

Lemma consistent_Replace_attr b e a r :
  consistent r -> consistent (Replace_attr b e a r).
Proof. intros []. constructor; cbn; assumption. Qed.

Lemma consistent_SetWrapForced v r :
  consistent r -> consistent (SetWrapForced v r).
Proof. intros []. constructor; cbn; assumption. Qed.

Lemma consistent_SetDoubleBytePadded v r :
  consistent r -> consistent (SetDoubleBytePadded v r).
Proof. intros []. constructor; cbn; assumption. Qed.

Lemma fits_blank : fits [UNICODE_SPACE].
Proof. unfold fits. cbn. reflexivity. Qed.

Lemma ClearCell_consistent column r :
  consistent r -> leaves consistent consistent (ClearCell uninit column r).
Proof. intros Hr. apply Replace_consistent; [exact Hr | exact fits_blank]. Qed.

Lemma ClearColumn_consistent column r :
  consistent r -> leaves consistent consistent (ClearColumn uninit column r).
Proof.
  intros Hr. unfold ClearColumn.
  destruct (_ <=? _); [exact Hr | now apply ClearCell_consistent].
Qed.

Lemma iota_Some n l l' :
  iota n l = Some l' ->
  length l' = length l /\ (Forall (fun v => 0 <= v < 2 ^ 16) l ->
                           Forall (fun v => 0 <= v < 2 ^ 16) l').
Proof.
  unfold iota. destruct ((0 <=? n) && (n <=? Z.of_nat (length l))) eqn:E;
    [|discriminate].
  apply andb_prop in E as [E1 E2]. apply Z.leb_le in E1, E2.
  intros H; inversion H; subst; clear H. split.
  - rewrite length_app, length_map, length_seq, length_skipn. lia.
  - intros HF. apply Forall_app; split; [|now apply Forall_skipn].
    apply Forall_map, Forall_forall. intros i _. apply u16_range.
Qed.

Lemma Reset_consistent Attr r :
  consistent r -> leaves consistent consistent (Reset Attr r).
Proof.
  intros Hr. unfold Reset.
  apply leaves_access. intros used _.
  apply leaves_access. intros c Hc.
  apply leaves_access. intros i Hi. cbn [leaves].
  apply iota_Some in Hi as [Hl HF]. apply wmemset_length in Hc.
  destruct Hr.
  constructor; cbn [_chars _charsCapacity _indices _indicesCount];
    try assumption; try lia.
  now apply HF.
Qed.

Lemma blank_row_consistent rowWidth fillAttribute :
  0 < rowWidth <= 65535 -> consistent (blank_row rowWidth fillAttribute).
Proof.
  intros H. constructor; cbn [blank_row _indicesCount _indices _chars _charsCapacity].
  - exact H.
  - rewrite length_map, length_seq. lia.
  - apply Forall_map, Forall_forall. intros i _. apply u16_range.
  - change (2 ^ 18) with 262144. lia.
  - assert (L : forall s, length (wstr_bytes s) = (2 * length s)%nat).
    { induction s as [|a s IH]; [reflexivity|].
      cbn [wstr_bytes wchar_bytes app length]. rewrite IH. lia. }
    rewrite L, repeat_length. lia.
Qed.

(** *** Properties of the row kept by the cell writer *)

Section Preserved.

Variable P : ROW -> Prop.
Variable F : list Z -> Prop.
Hypothesis F_blank : F [UNICODE_SPACE].
Hypothesis P_Replace : forall x width chars r,
  P r -> F chars -> leaves P P (Replace uninit x width chars r).
Hypothesis P_Replace_attr : forall b e a r, P r -> P (Replace_attr b e a r).
Hypothesis P_SetWrapForced : forall v r, P r -> P (SetWrapForced v r).
Hypothesis P_SetDoubleBytePadded : forall v r,
  P r -> P (SetDoubleBytePadded v r).

Lemma cells_ok_tl i : cells_ok F i -> cells_ok F (tl i).
Proof. intros H. destruct H; [constructor | assumption]. Qed.

Lemma WriteCells_body_preserves wrap final c w :
  writer_ok P F w -> F (Chars c) ->
  leaves (writer_ok P F) P (WriteCells_body uninit wrap final c w).
Proof.
  intros [Hr Hi] Hc. unfold WriteCells_body.
  set (w1 := if behavior_eqb (TextAttrBehavior c) Current then w else _).
  assert (H1 : writer_ok P F w1).
  { subst w1. destruct (behavior_eqb _ Current); [now split|].
    destruct (_ =? _); split; cbn; auto. }
  clearbody w1. destruct H1 as [Hr1 Hi1].
  apply (leaves_bind (writer_ok P F)).
  - destruct (behavior_eqb _ StoredOnly).
    + cbn. split; cbn; [assumption | now apply cells_ok_tl].
    + apply (leaves_bind (fun p => P (fst p) /\ cells_ok F (snd p))).
      * destruct (_ && _).
        { apply (leaves_bind P); [apply P_Replace; [assumption | apply F_blank]|].
          intros r' _ Hr'. cbn. auto. }
        destruct (_ && _).
        { apply (leaves_bind P); [apply P_Replace; [assumption | apply F_blank]|].
          intros r' _ Hr'. cbn. auto. }
        apply (leaves_bind P); [apply P_Replace; assumption|].
        intros r' _ Hr'. cbn. split; [assumption | now apply cells_ok_tl].
      * intros [r' i'] _ [Hr' Hi']. cbn in Hr', Hi'. cbn [leaves].
        split; cbn [row it]; [|assumption].
        destruct wrap as [v|]; [|assumption].
        destruct (_ =? _); auto.
  - intros w' _ [Hr' Hi']. cbn. split; assumption.
Qed.

Lemma WriteCells_loop_preserves columns wrap final w :
  writer_ok P F w ->
  leaves (writer_ok P F) P (WriteCells_loop uninit columns wrap final w).
Proof.
  revert w; induction columns as [|n IH]; intros w Hw; [exact Hw|].
  cbn [WriteCells_loop].
  destruct (it w) as [|c rest] eqn:Eit; [exact Hw|].
  destruct (_ <=? _); [|exact Hw].
  apply (leaves_bind (writer_ok P F)).
  - apply WriteCells_body_preserves; [exact Hw|].
    destruct Hw as [_ Hi]. rewrite Eit in Hi. now inversion Hi.
  - intros w' _ Hw'. now apply IH.
Qed.

Lemma WriteCells_preserves i index wrap limitRight r :
  P r -> cells_ok F i ->
  leaves (fun p => P (fst p) /\ cells_ok F (snd p)) P
         (WriteCells uninit i index wrap limitRight r).
Proof.
  intros Hr Hi. unfold WriteCells.
  destruct (_ <=? _); [exact Hr|].
  destruct (_ <=? _); [exact Hr|].
  apply (leaves_bind (writer_ok P F)).
  - apply WriteCells_loop_preserves. split; assumption.
  - intros w _ [Hrw Hiw]. cbn [leaves]. unfold WriteCells_end. cbn [fst snd].
    split; [|assumption]. destruct (_ =? 0); auto.
Qed.

End Preserved.

(** *** The width and the shape of the row through all operations *)



Lemma WriteCells_consistent i index wrap limitRight r :
  consistent r -> cells_fit i ->
  leaves (fun p => consistent (fst p)) consistent
         (WriteCells uninit i index wrap limitRight r).
Proof.
  intros Hr Hi.
  pose proof (WriteCells_preserves consistent fits fits_blank
                Replace_consistent consistent_Replace_attr consistent_SetWrapForced
                consistent_SetDoubleBytePadded
                i index wrap limitRight r Hr Hi) as H.
  destruct (WriteCells uninit i index wrap limitRight r); cbn [leaves] in *;
    [apply H | exact H | exact I].
Qed.

(** Every row the operations reach has the consistent shape. *)
Lemma reachable_consistent r : reachable uninit r -> consistent r.
Proof.
  induction 1 as [w a Hw | buffer indices w a Hw Hb Hi Hr r' Hl
                  | r Attr _ IH r' Hl | r x width chars _ IH Hf r' Hl
                  | r column _ IH r' Hl | r i index wrap lim _ IH Hf r' Hl
                  | r b e a _ IH | r v _ IH | r v _ IH].
  - now apply blank_row_consistent.
  - unfold ROW_ctor in Hl.
    assert (H0 : consistent
                   (mkROW buffer w indices w [] SingleWidth false false)).
    { constructor; cbn [_chars _charsCapacity _indices _indicesCount];
        try assumption. change (2 ^ 18) with 262144. lia. }
    pose proof (Reset_consistent a _ H0) as H.
    destruct (Reset a _); cbn [leaves ends_in id] in *;
      subst; assumption || contradiction.
  - pose proof (Reset_consistent Attr r IH) as H.
    destruct (Reset Attr r); cbn [leaves ends_in id] in *;
      subst; assumption || contradiction.
  - pose proof (Replace_consistent x width chars r IH Hf) as H.
    destruct (Replace uninit x width chars r); cbn [leaves ends_in id] in *;
      subst; assumption || contradiction.
  - pose proof (ClearColumn_consistent column r IH) as H.
    destruct (ClearColumn uninit column r); cbn [leaves ends_in id] in *;
      subst; assumption || contradiction.
  - pose proof (WriteCells_consistent i index wrap lim r IH Hf) as H.
    destruct (WriteCells uninit i index wrap lim r); cbn [leaves ends_in id] in *;
      subst; assumption || contradiction.
  - now apply consistent_Replace_attr.
  - now apply consistent_SetWrapForced.
  - now apply consistent_SetDoubleBytePadded.
Qed.

(** *** Code units read from the buffer *)

Lemma firstn_bytes_wstr n b :
  bytes_wstr (firstn (2 * n) b) = firstn n (bytes_wstr b).
Proof.
  revert b; induction n as [|n IH]; intros b; [reflexivity|].
  replace (2 * S n)%nat with (S (S (2 * n))) by lia.
  destruct b as [|lo [|hi b]]; [reflexivity | reflexivity |].
  cbn [firstn bytes_wstr]. now rewrite IH.
Qed.

Lemma length_bytes_wstr n b :
  (2 * n <= length b)%nat -> (n <= length (bytes_wstr b))%nat.
Proof.
  revert b; induction n as [|n IH]; intros b H; [lia|].
  destruct b as [|lo [|hi b]]; cbn [length] in H; try lia.
  cbn [bytes_wstr length]. apply le_n_S, IH. lia.
Qed.

Lemma full_text_consistent r :
  consistent r ->
  full_text r = Some (firstn (Z.to_nat (size r)) (bytes_wstr (_chars r)))
  /\ Z.of_nat (length (firstn (Z.to_nat (size r)) (bytes_wstr (_chars r))))
     = size r.
Proof.
  intros [Hw _ _ Hcap Hbuf]. unfold full_text, GetText, view_text, load_bytes, size.
  cbn [data length_].
  change (0 <=? 2 * 0) with true.
  replace (0 <=? 2 * _indicesCount r) with true
    by (symmetry; apply Z.leb_le; lia).
  replace (2 * 0 + 2 * _indicesCount r <=? Z.of_nat (length (_chars r)))
    with true by (symmetry; apply Z.leb_le; lia).
  cbn [andb option_map]. change (Z.to_nat (2 * 0)) with 0%nat. cbn [skipn].
  replace (Z.to_nat (2 * _indicesCount r))
    with (2 * Z.to_nat (_indicesCount r))%nat by lia.
  rewrite firstn_bytes_wstr. split; [reflexivity|].
  rewrite length_firstn.
  pose proof (length_bytes_wstr (Z.to_nat (_indicesCount r)) (_chars r)).
  lia.
Qed.

(** *** The turn of the loop at the right limit *)



(** *** The bound on the turns of the loop is never what stops it *)

Lemma WriteCells_body_currentIndex wrap final c w w' :
  WriteCells_body uninit wrap final c w = Done w' ->
  currentIndex w' = u16 (currentIndex w + 1).
Proof.
  unfold WriteCells_body.
  set (w1 := if behavior_eqb (TextAttrBehavior c) Current then w else _).
  assert (H1 : currentIndex w1 = currentIndex w).
  { subst w1. destruct (behavior_eqb _ Current); [reflexivity|].
    destruct (_ =? _); reflexivity. }
  clearbody w1. intros H.
  apply bind_Done in H as (w2 & H2 & H). inversion H; subst w'; clear H.
  cbn [currentIndex]. rewrite <- H1. f_equal. f_equal.
  destruct (behavior_eqb _ StoredOnly).
  - inversion H2; subst. reflexivity.
  - apply bind_Done in H2 as ([r' i'] & _ & H2). cbn in H2.
    inversion H2; subst. reflexivity.
Qed.

(** With one turn allowed per column up to the right limit, the loop
    returns only because the iterator is exhausted or the column has passed
    the limit. *)
Lemma WriteCells_loop_exits columns wrap final w w' :
  0 <= currentIndex w -> final < 65535 ->
  final + 1 - currentIndex w <= Z.of_nat columns ->
  WriteCells_loop uninit columns wrap final w = Done w' ->
  it w' = [] \/ final < currentIndex w'.
Proof.
  revert w; induction columns as [|n IH]; intros w H0 Hf Hn H.
  - cbn in H. inversion H; subst. right. lia.
  - cbn [WriteCells_loop] in H.
    destruct (it w) as [|c rest] eqn:Eit.
    + inversion H; subst. now left.
    + destruct (currentIndex w <=? final) eqn:Ecol.
      * apply Z.leb_le in Ecol.
        apply bind_Done in H as (w1 & Hb & H).
        apply WriteCells_body_currentIndex in Hb.
        rewrite u16_small in Hb by (rewrite two_16; lia).
        apply (IH w1); try lia. exact H.
      * apply Z.leb_gt in Ecol. inversion H; subst. right. lia.
Qed.

(** *** What [Reset] leaves *)

Lemma length_wstr_bytes s : length (wstr_bytes s) = (2 * length s)%nat.
Proof.
  induction s as [|a s IH]; [reflexivity|].
  cbn [wstr_bytes wchar_bytes app length]. rewrite IH. lia.
Qed.

Lemma bytes_wstr_app s b :
  bytes_wstr (wstr_bytes s ++ b)
  = map (fun c => c mod 256 + 256 * ((c / 256) mod 256)) s ++ bytes_wstr b.
Proof.
  induction s as [|a s IH]; [reflexivity|].
  cbn [wstr_bytes wchar_bytes app bytes_wstr map]. now rewrite IH.
Qed.

Lemma Reset_Done Attr r r' :
  Reset Attr r = Done r' ->
  exists used c i,
    index_at r (_indicesCount r) = Some used
    /\ wmemset (_chars r) UNICODE_SPACE used = Some c
    /\ iota (_indicesCount r + 1) (_indices r) = Some i
    /\ r' = mkROW c (_charsCapacity r) i (_indicesCount r)
                  (rle.replace 0 (rle.size (_attr r)) Attr (_attr r))
                  SingleWidth false false.
Proof.
  unfold Reset. intros H.
  apply bind_Done in H as (used & Hu & H). apply access_Done in Hu.
  apply bind_Done in H as (c & Hc & H). apply access_Done in Hc.
  apply bind_Done in H as (i & Hi & H). apply access_Done in Hi.
  inversion H; subst. eauto 8.
Qed.

(** [Reset] returns whenever the code units in use fit the buffer. *)
Lemma Reset_returns Attr r used :
  consistent r ->
  index_at r (_indicesCount r) = Some used ->
  used <= _charsCapacity r ->
  exists r', Reset Attr r = Done r'.
Proof.
  intros Hr Hu Hcap. unfold Reset. rewrite Hu. cbn [access bind].
  pose proof (index_at_range _ _ _ (table_range r Hr) Hu) as Ru.
  unfold wmemset, store_bytes.
  replace (0 <=? used) with true by (symmetry; apply Z.leb_le; lia).
  rewrite length_wstr_bytes, repeat_length.
  replace (0 + Z.of_nat (2 * Z.to_nat used) <=? Z.of_nat (length (_chars r)))
    with true
    by (symmetry; apply Z.leb_le; rewrite (buffer_length r Hr); lia).
  change (0 <=? 0) with true. cbn [andb access bind]. unfold iota.
  replace (0 <=? _indicesCount r + 1) with true
    by (symmetry; apply Z.leb_le; pose proof (width_range r Hr); lia).
  replace (_indicesCount r + 1 <=? Z.of_nat (length (_indices r))) with true
    by (symmetry; apply Z.leb_le; rewrite (table_length r Hr); lia).
  cbn [andb access bind]. eauto.
Qed.

(** After [Reset] the offsets are the identity. *)
Lemma Reset_index_at Attr r r' c :
  consistent r -> Reset Attr r = Done r' ->
  0 <= c <= _indicesCount r -> index_at r' c = Some c.
Proof.
  intros Hr H Hc.
  apply Reset_Done in H as (used & b & i & _ & _ & Hi & ->).
  pose proof (width_range r Hr) as Hw. pose proof (table_length r Hr) as Hl.
  unfold iota in Hi.
  destruct ((0 <=? _indicesCount r + 1)
            && (_indicesCount r + 1 <=? Z.of_nat (length (_indices r))));
    [|discriminate].
  inversion Hi; subst i; clear Hi.
  rewrite index_at_nth by lia. cbn [_indices].
  rewrite nth_error_app1 by (rewrite length_map, length_seq; lia).
  rewrite nth_error_map, nth_error_seq.
  replace (Z.to_nat c <? Z.to_nat (_indicesCount r + 1))%nat with true
    by (symmetry; apply Nat.ltb_lt; lia).
  cbn [option_map Nat.add]. f_equal.
  rewrite u16_small by (rewrite two_16; lia). lia.
Qed.

Lemma Reset_shape Attr r r' :
  Reset Attr r = Done r' ->
  _indicesCount r' = _indicesCount r /\ _charsCapacity r' = _charsCapacity r
  /\ _lineRendition r' = SingleWidth /\ _wrapForced r' = false
  /\ _doubleBytePadded r' = false.
Proof.
  intros H. apply Reset_Done in H as (used & b & i & _ & _ & _ & ->).
  cbn. auto.
Qed.

Lemma Reset_Done_consistent Attr r r' :
  consistent r -> Reset Attr r = Done r' -> consistent r'.
Proof.
  intros Hr H. pose proof (Reset_consistent Attr r Hr) as Hl.
  now rewrite H in Hl.
Qed.

(** If at least [width] code units were in use, the text after [Reset] is
    all blanks. *)
Lemma Reset_full_text Attr r r' used :
  consistent r ->
  index_at r (_indicesCount r) = Some used ->
  _indicesCount r <= used ->
  Reset Attr r = Done r' ->
  full_text r' = Some (repeat UNICODE_SPACE (Z.to_nat (_indicesCount r))).
Proof.
  intros Hr Hu Hfull H.
  pose proof (Reset_Done_consistent _ _ _ Hr H) as Hr'.
  destruct (full_text_consistent r' Hr') as [Ht _]. rewrite Ht. f_equal.
  apply Reset_Done in H as (used' & b & i & Hu' & Hb & _ & ->).
  rewrite Hu in Hu'. inversion Hu'; subst used'. clear Hu'.
  unfold size. cbn [_indicesCount _chars].
  pose proof (width_range r Hr) as Hw.
  unfold wmemset, store_bytes in Hb.
  destruct (0 <=? used); [|discriminate].
  destruct (_ && _); [|discriminate].
  inversion Hb; subst b; clear Hb.
  change (Z.to_nat 0) with 0%nat. cbn [firstn app].
  rewrite bytes_wstr_app, map_repeat.
  change (UNICODE_SPACE mod 256 + 256 * (UNICODE_SPACE / 256 mod 256))
    with UNICODE_SPACE.
  rewrite firstn_app, repeat_length.
  replace (Z.to_nat (_indicesCount r) - Z.to_nat used)%nat with 0%nat by lia.
  cbn [firstn]. rewrite app_nil_r.
  replace (Z.to_nat used)
    with (Z.to_nat (_indicesCount r)
          + (Z.to_nat used - Z.to_nat (_indicesCount r)))%nat at 1 by lia.
  rewrite repeat_app, firstn_app, repeat_length, Nat.sub_diag.
  cbn [firstn]. rewrite app_nil_r.
  rewrite firstn_all2 by (rewrite repeat_length; lia). reflexivity.
Qed.

(** *** What the text [Replace] leaves alone *)

Lemma Replace_move_frame lhs rhs n diff cur r r' :
  Replace_move uninit lhs rhs n diff cur r = Done r' ->
  same_frame r' r /\ _indices r' = _indices r
  /\ _charsCapacity r <= _charsCapacity r'
  /\ usize (cur + diff) <= _charsCapacity r'.
Proof.
  unfold Replace_move. intros H.
  destruct (_ <=? _) eqn:E.
  - apply Z.leb_le in E.
    apply bind_Done in H as (c & _ & H). inversion H; subst.
    unfold same_frame; cbn. repeat split; auto; lia.
  - apply Z.leb_gt in E.
    destruct (alloc_max <? _); [discriminate|].
    apply bind_Done in H as (c & _ & H).
    apply bind_Done in H as (c' & _ & H). inversion H; subst.
    unfold same_frame; cbn [_attr _lineRendition _wrapForced _doubleBytePadded
                            _indicesCount _indices _charsCapacity with_chars].
    repeat split; auto; lia.
Qed.

Lemma Replace_shift_frame lhs rhs n x2 r r' :
  Replace_shift uninit lhs rhs n x2 r = Done r' ->
  same_frame r' r /\ _charsCapacity r <= _charsCapacity r'.
Proof.
  unfold Replace_shift. intros H.
  destruct (_ =? 0).
  - inversion H; subst. unfold same_frame. repeat split; auto; lia.
  - apply bind_Done in H as (cur & _ & H).
    apply bind_Done in H as (r1 & Hm & H).
    apply bind_Done in H as (i & _ & H). inversion H; subst; clear H.
    apply Replace_move_frame in Hm as (Hf & _ & Hc & _).
    unfold same_frame in *. cbn. intuition congruence.
Qed.

Lemma Replace_frame x width chars r r' :
  Replace uninit x width chars r = Done r' ->
  same_frame r' r /\ _charsCapacity r <= _charsCapacity r'.
Proof.
  unfold Replace. destruct chars as [|ch tl].
  - intros H; inversion H; subst. unfold same_frame. repeat split; auto; lia.
  - intros H.
    apply bind_Done in H as (lhs & _ & H).
    apply bind_Done in H as ([rhs x2] & _ & H). cbv beta iota zeta in H.
    apply bind_Done in H as (r1 & Hs & H).
    apply bind_Done in H as (c & _ & H).
    apply bind_Done in H as (i & _ & H). inversion H; subst; clear H.
    apply Replace_shift_frame in Hs as (Hf & Hc).
    unfold same_frame in *. cbn. intuition congruence.
Qed.

(** *** The code units in use stay inside the buffer *)

Lemma u16_usize z : u16 (usize z) = u16 z.
Proof.
  unfold u16, usize. apply Z.mod_mod_divide.
  exists (2 ^ 48). reflexivity.
Qed.

Lemma u16_le z : 0 <= z -> u16 z <= z.
Proof. intros H. unfold u16. apply Z.mod_le; [exact H | reflexivity]. Qed.

Lemma Replace_shift_used_fits lhs rhs n x2 r :
  Z.of_nat (length (_indices r)) = _indicesCount r + 1 ->
  0 <= x2 <= _indicesCount r ->
  used_fits r ->
  leaves (fun r' => used_fits r' /\ _indicesCount r' = _indicesCount r
                    /\ length (_indices r') = length (_indices r))
         used_fits (Replace_shift uninit lhs rhs n x2 r).
Proof.
  intros Hlen Hx2 Hu. unfold Replace_shift.
  destruct (_ =? 0); [cbn; auto|].
  apply leaves_access. intros cur Hcur.
  destruct (Replace_move uninit lhs rhs n (usize (rhs - lhs - n)) cur r)
    as [r1 | e s |] eqn:Em; cbn [bind leaves]; [| |exact I].
  - apply Replace_move_frame in Em as (Hf & Hi & _ & Hnew).
    destruct Hf as (_ & _ & _ & _ & Hn).
    apply leaves_access. intros i Hupd. cbn [leaves].
    pose proof (update_range_length _ _ _ _ _ Hupd) as Hl.
    split; [|split; [cbn; congruence | cbn; congruence]].
    exists (u16 (cur + usize (rhs - lhs - n))). split.
    + unfold used_length, index_at. cbn [_indices _indicesCount with_indices].
      rewrite Hn in *. rewrite Hi in *.
      replace (0 <=? _indicesCount r) with true
        by (symmetry; apply Z.leb_le; lia).
      rewrite (update_range_nth _ _ _ _ _ _ Hupd).
      replace (x2 <=? Z.of_nat (Z.to_nat (_indicesCount r))) with true
        by (symmetry; apply Z.leb_le; lia).
      replace (Z.of_nat (Z.to_nat (_indicesCount r)) <? _indicesCount r + 1)
        with true by (symmetry; apply Z.ltb_lt; lia).
      cbn [andb]. rewrite index_at_nth in Hcur by lia. rewrite Hcur.
      reflexivity.
    + cbn [_charsCapacity with_indices].
      rewrite <- u16_usize.
      pose proof (usize_range (cur + usize (rhs - lhs - n))).
      pose proof (u16_le (usize (cur + usize (rhs - lhs - n)))). lia.
  - apply Replace_move_Thrown in Em as [_ ->]. exact Hu.
Qed.

Lemma Replace_used_fits x width chars r :
  consistent r -> used_fits r ->
  leaves used_fits used_fits (Replace uninit x width chars r).
Proof.
  intros Hr Hu. unfold Replace.
  destruct chars as [|ch tl]; [exact Hu|].
  pose proof (width_range r Hr) as Hw. pose proof (table_length r Hr) as Hl.
  apply leaves_access. intros lhs _.
  apply leaves_access. intros [rhs x2] Hscan.
  apply scan_ne_Some in Hscan as [Hscan _].
  rewrite length_skipn in Hscan.
  pose proof (usize_range (Z.min x (_indicesCount r) + width)) as Hus.
  set (x0 := Z.min (usize (Z.min x (_indicesCount r) + width)) (_indicesCount r))
    in *.
  assert (Hx2 : 0 <= x2 <= _indicesCount r) by lia.
  apply (leaves_bind
           (fun r' => used_fits r' /\ _indicesCount r' = _indicesCount r
                      /\ length (_indices r') = length (_indices r))).
  - now apply Replace_shift_used_fits.
  - intros r1 _ ((used & Hu1 & Hc1) & Hn1 & Hl1).
    apply leaves_access. intros c _.
    apply leaves_access. intros i Hupd. cbn [leaves].
    exists used. split; [|exact Hc1].
    unfold used_length, index_at in *.
    cbn [_indices _indicesCount with_indices with_chars].
    rewrite Hn1 in *.
    replace (0 <=? _indicesCount r) with true in *
      by (symmetry; apply Z.leb_le; lia).
    rewrite (update_range_nth _ _ _ _ _ _ Hupd).
    replace (Z.of_nat (Z.to_nat (_indicesCount r)) <? x2) with false
      by (symmetry; apply Z.ltb_ge; lia).
    rewrite andb_false_r. exact Hu1.
Qed.

Lemma used_fits_same_text r s : same_text r s -> used_fits r -> used_fits s.
Proof.
  intros (_ & Hcap & Hi & Hn) (used & Hu & Hc). exists used.
  unfold used_length, index_at in *. rewrite <- Hi, <- Hn, <- Hcap. auto.
Qed.

Lemma Replace_sound x width chars r :
  consistent r /\ used_fits r -> fits chars ->
  leaves (fun r' => consistent r' /\ used_fits r')
         (fun r' => consistent r' /\ used_fits r')
         (Replace uninit x width chars r).
Proof.
  intros [Hr Hu] Hf.
  pose proof (Replace_consistent x width chars r Hr Hf) as H1.
  pose proof (Replace_used_fits x width chars r Hr Hu) as H2.
  destruct (Replace uninit x width chars r); cbn [leaves] in *; auto.
Qed.

Lemma Reset_used_fits Attr r r' :
  consistent r -> Reset Attr r = Done r' -> used_fits r'.
Proof.
  intros Hr H.
  destruct (Reset_shape _ _ _ H) as (Hn & Hcap & _).
  exists (_indicesCount r). split.
  - unfold used_length. rewrite Hn. apply (Reset_index_at Attr r r'); auto.
    pose proof (width_range r Hr). lia.
  - rewrite Hcap. apply (capacity_range r Hr).
Qed.

(** On every row the operations reach, the code units in use fit the
    buffer. *)
Lemma reachable_used_fits r : reachable uninit r -> used_fits r.
Proof.
  intros H. pose proof (reachable_consistent r H) as Hcons. revert Hcons.
  induction H as [w a Hw | buffer indices w a Hw Hb Hi Hr r' Hl
                  | r Attr Hreach IH r' Hl | r x width chars Hreach IH Hf r' Hl
                  | r column Hreach IH r' Hl
                  | r i index wrap lim Hreach IH Hf r' Hl
                  | r b e a Hreach IH | r v Hreach IH | r v Hreach IH];
    intros Hcons.
  - exists w. split; [|cbn; lia].
    unfold used_length, index_at. cbn [blank_row _indices _indicesCount].
    replace (0 <=? w) with true by (symmetry; apply Z.leb_le; lia).
    rewrite nth_error_map, nth_error_seq.
    replace (Z.to_nat w <? Z.to_nat (w + 1))%nat with true
      by (symmetry; apply Nat.ltb_lt; lia).
    cbn [option_map Nat.add]. f_equal.
    rewrite u16_small by (rewrite two_16; lia). lia.
  - unfold ROW_ctor in Hl.
    destruct (Reset a _) as [r0 | e s |] eqn:E; cbn [ends_in] in Hl;
      unfold id in Hl; [subst r' | | contradiction].
    + eapply Reset_used_fits; [|exact E].
      constructor; cbn [_chars _charsCapacity _indices _indicesCount];
        try assumption. change (2 ^ 18) with 262144. lia.
    + exfalso. unfold Reset in E.
      repeat (apply bind_Thrown in E as [E | (? & _ & E)];
              [eapply access_not_Thrown; eauto|]).
      discriminate.
  - pose proof (reachable_consistent r Hreach) as Hr.
    destruct (Reset Attr r) as [r0 | e s |] eqn:E; cbn [ends_in] in Hl;
      unfold id in Hl; [subst r' | | contradiction].
    + eapply Reset_used_fits; eauto.
    + exfalso. unfold Reset in E.
      repeat (apply bind_Thrown in E as [E | (? & _ & E)];
              [eapply access_not_Thrown; eauto|]).
      discriminate.
  - pose proof (reachable_consistent r Hreach) as Hr.
    pose proof (Replace_sound x width chars r (conj Hr (IH Hr)) Hf) as H.
    destruct (Replace uninit x width chars r); cbn [leaves ends_in id] in *;
      subst; tauto.
  - pose proof (reachable_consistent r Hreach) as Hr.
    unfold ClearColumn in Hl.
    destruct (_ <=? _); [cbn in Hl; subst; auto|].
    pose proof (Replace_sound column 1 [UNICODE_SPACE] r (conj Hr (IH Hr))
                  fits_blank) as H.
    unfold ClearCell in Hl.
    destruct (Replace uninit column 1 [UNICODE_SPACE] r);
      cbn [leaves ends_in id] in *; subst; tauto.
  - pose proof (reachable_consistent r Hreach) as Hr.
    pose proof (WriteCells_preserves
                  (fun r' => consistent r' /\ used_fits r') fits fits_blank
                  Replace_sound
                  (fun b e a r H => conj (consistent_Replace_attr b e a r (proj1 H))
                     (used_fits_same_text _ _
                        (conj eq_refl (conj eq_refl (conj eq_refl eq_refl)))
                        (proj2 H)))
                  (fun v r H => conj (consistent_SetWrapForced v r (proj1 H))
                     (used_fits_same_text _ _
                        (conj eq_refl (conj eq_refl (conj eq_refl eq_refl)))
                        (proj2 H)))
                  (fun v r H => conj (consistent_SetDoubleBytePadded v r (proj1 H))
                     (used_fits_same_text _ _
                        (conj eq_refl (conj eq_refl (conj eq_refl eq_refl)))
                        (proj2 H)))
                  i index wrap lim r (conj Hr (IH Hr)) Hf) as H.
    destruct (WriteCells uninit i index wrap lim r);
      cbn [leaves ends_in] in *; subst; tauto.
  - eapply used_fits_same_text; [|apply IH, (reachable_consistent r Hreach)].
    unfold same_text; cbn; auto.
  - eapply used_fits_same_text; [|apply IH, (reachable_consistent r Hreach)].
    unfold same_text; cbn; auto.
  - eapply used_fits_same_text; [|apply IH, (reachable_consistent r Hreach)].
    unfold same_text; cbn; auto.
Qed.

(** *** Reading code units *)

Lemma char_at_Some r i :
  0 <= i -> 2 * i + 2 <= Z.of_nat (length (_chars r)) ->
  exists c, char_at r i = Some c.
Proof.
  intros H0 Hb. unfold char_at, load_bytes.
  replace (0 <=? 2 * i) with true by (symmetry; apply Z.leb_le; lia).
  change (0 <=? 2) with true.
  replace (2 * i + 2 <=? Z.of_nat (length (_chars r))) with true
    by (symmetry; apply Z.leb_le; lia).
  cbn [andb]. change (Z.to_nat 2) with 2%nat.
  pose proof (length_skipn (Z.to_nat (2 * i)) (_chars r)) as L.
  destruct (skipn (Z.to_nat (2 * i)) (_chars r)) as [|lo [|hi t]];
    cbn [length] in L; try lia.
  cbn [firstn]. eauto.
Qed.

Lemma MeasureLeft_loop_spec r n : forall it,
  0 <= it ->
  2 * (it + Z.of_nat n) <= Z.of_nat (length (_chars r)) ->
  exists m,
    MeasureLeft_loop r it n = Some m
    /\ it <= m <= it + Z.of_nat n
    /\ (forall j, it <= j < m -> char_at r j = Some UNICODE_SPACE)
    /\ (m < it + Z.of_nat n ->
        exists c, char_at r m = Some c /\ c <> UNICODE_SPACE).
Proof.
  induction n as [|n IH]; intros it H0 Hb.
  - exists it. cbn [MeasureLeft_loop]. repeat split; try lia; intros; lia.
  - cbn [MeasureLeft_loop].
    destruct (char_at_Some r it) as [c Hc]; [lia | lia |]. rewrite Hc.
    destruct (c =? UNICODE_SPACE) eqn:E.
    + apply Z.eqb_eq in E. subst c.
      destruct (IH (it + 1)) as (m & Hm & Hr & Hbl & Hnb); [lia | lia |].
      exists m. split; [exact Hm|]. split; [lia|]. split.
      * intros j Hj. destruct (Z.eq_dec j it) as [-> | Hne]; [exact Hc|].
        apply Hbl. lia.
      * intros Hlt. apply Hnb. lia.
    + apply Z.eqb_neq in E. exists it. split; [reflexivity|].
      split; [lia|]. split; [intros j Hj; lia | eauto].
Qed.

Lemma MeasureRight_loop_spec r it :
  2 * Z.of_nat it + 2 <= Z.of_nat (length (_chars r)) ->
  exists m,
    MeasureRight_loop r it = Some m
    /\ 0 <= m <= Z.of_nat it
    /\ (forall j, m < j <= Z.of_nat it -> char_at r j = Some UNICODE_SPACE)
    /\ (0 < m -> exists c, char_at r m = Some c /\ c <> UNICODE_SPACE).
Proof.
  induction it as [|it IH]; intros Hb.
  - exists 0. cbn [MeasureRight_loop]. repeat split; try lia; intros; lia.
  - cbn [MeasureRight_loop].
    destruct (char_at_Some r (Z.of_nat (S it))) as [c Hc]; [lia | lia |].
    rewrite Hc. destruct (c =? UNICODE_SPACE) eqn:E.
    + apply Z.eqb_eq in E. subst c.
      destruct IH as (m & Hm & Hr & Hbl & Hnb); [lia|].
      exists m. split; [exact Hm|]. split; [lia|]. split; [|exact Hnb].
      intros j Hj.
      destruct (Z.eq_dec j (Z.of_nat (S it))) as [-> | Hne]; [exact Hc|].
      apply Hbl. lia.
    + apply Z.eqb_neq in E. exists (Z.of_nat (S it)).
      split; [reflexivity|]. split; [lia|].
      split; [intros j Hj; lia | eauto].
Qed.

(** *** Writing one code unit over one code unit *)

Lemma update_range_same f lo hi (l l' : list Z) :
  update_range f lo hi l = Some l' ->
  (forall i v, lo <= Z.of_nat i < hi -> nth_error l i = Some v -> f v = v) ->
  l' = l.
Proof.
  intros H Hf. apply nth_error_ext. intros i.
  rewrite (update_range_nth _ _ _ _ _ i H).
  destruct ((lo <=? Z.of_nat i) && (Z.of_nat i <? hi)) eqn:E; [|reflexivity].
  apply andb_prop in E as [E1 E2]. apply Z.leb_le in E1. apply Z.ltb_lt in E2.
  destruct (nth_error l i) as [v|] eqn:Ev; [|reflexivity].
  cbn [option_map]. f_equal. apply (Hf i); [lia | exact Ev].
Qed.

Lemma Replace_one_unit r c l t hi :
  0 <= c < size r -> size r <= 65535 ->
  index_at r c = Some l ->
  index_at r (c + 1) = Some (l + 1) ->
  0 <= l ->
  nth_error (_chars r) (Z.to_nat (2 * l + 1)) = Some hi ->
  exists r',
    Replace uninit c 1 [t] r = Done r'
    /\ glyph_text c r' = Some [t mod 256 + 256 * hi]
    /\ _indices r' = _indices r
    /\ _charsCapacity r' = _charsCapacity r
    /\ length (_chars r') = length (_chars r).
Proof.
  unfold size. intros Hc Hw Hl Hl1 Hl0 Hhi.
  assert (Hbuf : 2 * l + 1 < Z.of_nat (length (_chars r))).
  { assert (nth_error (_chars r) (Z.to_nat (2 * l + 1)) <> None) by congruence.
    apply nth_error_Some in H. lia. }
  unfold Replace.
  replace (Z.min c (_indicesCount r)) with c by lia.
  rewrite usize_small by (rewrite two_64; lia).
  replace (Z.min (c + 1) (_indicesCount r)) with (c + 1) by lia.
  rewrite Hl. cbn [access bind].
  rewrite index_at_nth in Hl1 by lia.
  rewrite (skipn_nth_error_cons _ _ _ Hl1). cbn [scan_ne].
  replace (l + 1 =? l) with false by (symmetry; apply Z.eqb_neq; lia).
  cbn [access bind]. unfold Replace_shift.
  replace (l + 1 - l - Z.of_nat (length [t])) with 0
    by (cbn [length]; lia).
  change (usize 0 =? 0) with true. cbn [bind].
  unfold memcpy.
  change (load_bytes (wstr_bytes [t]) 0 (Z.of_nat (length [t])))
    with (Some [t mod 256]).
  unfold store_bytes. cbn [length]. change (Z.of_nat 1) with 1.
  replace (0 <=? 2 * l) with true by (symmetry; apply Z.leb_le; lia).
  replace (2 * l + 1 <=? Z.of_nat (length (_chars r))) with true
    by (symmetry; apply Z.leb_le; lia).
  cbn [andb access bind].
  destruct (update_range (fun _ => l) c (c + 1) (_indices r)) as [i1|] eqn:Eu.
  2:{ unfold update_range in Eu.
      assert (c + 1 < Z.of_nat (length (_indices r))).
      { assert (nth_error (_indices r) (Z.to_nat (c + 1)) <> None) by congruence.
        apply nth_error_Some in H. lia. }
      replace (0 <=? c) with true in Eu by (symmetry; apply Z.leb_le; lia).
      replace (c <=? c + 1) with true in Eu by (symmetry; apply Z.leb_le; lia).
      replace (c + 1 <=? Z.of_nat (length (_indices r))) with true in Eu
        by (symmetry; apply Z.leb_le; lia).
      discriminate. }
  assert (Hsame : i1 = _indices r).
  { apply (update_range_same _ _ _ _ _ Eu). intros i v Hi Hv.
    rewrite index_at_nth in Hl by lia.
    replace i with (Z.to_nat c) in Hv by lia. congruence. }
  subst i1.
  cbn [access bind]. eexists. split; [reflexivity|].
  split; [|split; [reflexivity | split; [reflexivity|]]].
  - unfold glyph_text, GlyphAt, view_text.
    cbn [_indices _indicesCount _chars with_indices with_chars].
    unfold index_at at 1. cbn [_indices with_indices with_chars].
    rewrite usize_small by (rewrite two_64; lia).
    replace (Z.min c (_indicesCount r - 1)) with c by lia.
    replace (0 <=? c) with true by (symmetry; apply Z.leb_le; lia).
    rewrite index_at_nth in Hl by lia. rewrite Hl.
    rewrite (skipn_nth_error_cons _ _ _ Hl1). cbn [scan_ne].
    replace (l + 1 =? l) with false by (symmetry; apply Z.eqb_neq; lia).
    cbn [data length_].
    replace (l + 1 - l) with 1 by lia. change (usize 1) with 1.
    unfold load_bytes.
    rewrite !length_app, length_firstn, length_skipn. cbn [length].
    replace (0 <=? 2 * l) with true by (symmetry; apply Z.leb_le; lia).
    change (0 <=? 2 * 1) with true.
    match goal with |- context [?a <=? ?b] =>
      replace (a <=? b) with true by (symmetry; apply Z.leb_le; lia) end.
    cbn [andb option_map].
    rewrite skipn_app, length_firstn.
    rewrite skipn_all2 by (rewrite length_firstn; lia).
    replace (Z.to_nat (2 * l) - Nat.min (Z.to_nat (2 * l)) (length (_chars r)))%nat
      with 0%nat by lia.
    cbn [app skipn].
    change (Z.to_nat (2 * 1)) with 2%nat. cbn [firstn].
    replace (Z.to_nat (2 * l) + 1)%nat with (Z.to_nat (2 * l + 1)) by lia.
    rewrite (skipn_nth_error_cons _ _ _ Hhi). reflexivity.
  - cbn [_chars with_indices with_chars].
    rewrite !length_app, length_firstn, length_skipn. cbn [length]. lia.
Qed.

Lemma nth_error_wstr_bytes_hi s k c :
  nth_error s k = Some c ->
  nth_error (wstr_bytes s) (2 * k + 1) = Some ((c / 256) mod 256).
Proof.
  revert k; induction s as [|a s IH]; intros [|k] H; try discriminate.
  - cbn in H. inversion H; subst. reflexivity.
  - cbn [nth_error] in H.
    replace (2 * S k + 1)%nat with (S (S (2 * k + 1))) by lia.
    cbn [wstr_bytes wchar_bytes app nth_error]. now apply IH.
Qed.

(** After [Reset] of a row with at least [width] code units in use, the
    high byte under every column is zero. *)
Lemma Reset_high_bytes Attr r r' used c :
  consistent r ->
  index_at r (_indicesCount r) = Some used ->
  _indicesCount r <= used ->
  Reset Attr r = Done r' ->
  0 <= c < _indicesCount r ->
  nth_error (_chars r') (Z.to_nat (2 * c + 1)) = Some 0.
Proof.
  intros Hr Hu Hfull H Hc.
  apply Reset_Done in H as (used' & b & i & Hu' & Hb & _ & ->).
  rewrite Hu in Hu'. inversion Hu'; subst used'. clear Hu'.
  cbn [_chars].
  unfold wmemset, store_bytes in Hb.
  destruct (0 <=? used); [|discriminate].
  destruct (_ && _); [|discriminate].
  inversion Hb; subst b; clear Hb.
  change (Z.to_nat 0) with 0%nat. cbn [firstn app].
  rewrite nth_error_app1
    by (rewrite length_wstr_bytes, repeat_length; lia).
  replace (Z.to_nat (2 * c + 1)) with (2 * Z.to_nat c + 1)%nat by lia.
  rewrite (nth_error_wstr_bytes_hi _ _ UNICODE_SPACE); [reflexivity|].
  rewrite nth_error_repeat by lia. reflexivity.
Qed.

(** *** What the cell writer consumes *)

Lemma WriteCells_body_it wrap final c w w' :
  WriteCells_body uninit wrap final c w = Done w' ->
  it w' = it w \/ it w' = tl (it w).
Proof.
  unfold WriteCells_body.
  set (w1 := if behavior_eqb (TextAttrBehavior c) Current then w else _).
  assert (H1 : it w1 = it w).
  { subst w1. destruct (behavior_eqb _ Current); [reflexivity|].
    destruct (_ =? _); reflexivity. }
  clearbody w1. intros H.
  apply bind_Done in H as (w2 & H2 & H). inversion H; subst w'; clear H.
  cbn [it]. rewrite <- H1.
  destruct (behavior_eqb _ StoredOnly).
  - inversion H2; subst. now right.
  - apply bind_Done in H2 as ([r' i'] & Hp & H2). cbn in H2.
    inversion H2; subst; clear H2. cbn [it].
    destruct (_ && _).
    { apply bind_Done in Hp as (r0 & _ & Hp). inversion Hp; subst. now left. }
    destruct (_ && _).
    { apply bind_Done in Hp as (r0 & _ & Hp). inversion Hp; subst. now left. }
    apply bind_Done in Hp as (r0 & _ & Hp). inversion Hp; subst. now right.
Qed.

Lemma WriteCells_loop_suffix columns wrap final : forall w w',
  WriteCells_loop uninit columns wrap final w = Done w' ->
  exists k, (k <= columns)%nat /\ it w' = skipn k (it w).
Proof.
  induction columns as [|n IH]; intros w w' H.
  - cbn in H. inversion H; subst. exists 0%nat. auto.
  - cbn [WriteCells_loop] in H.
    destruct (it w) as [|c rest] eqn:Eit.
    { inversion H; subst. exists 0%nat. rewrite Eit. split; [lia | reflexivity]. }
    destruct (_ <=? _).
    2:{ inversion H; subst. exists 0%nat. rewrite Eit.
        split; [lia | reflexivity]. }
    apply bind_Done in H as (w1 & Hb & H).
    apply IH in H as (k & Hk & Hs).
    apply WriteCells_body_it in Hb as [Hi | Hi]; rewrite Eit in Hi.
    + exists k. rewrite Hs, Hi. split; [lia | reflexivity].
    + exists (S k). rewrite Hs, Hi. split; [lia | reflexivity].
Qed.

Lemma WriteCells_body_Single wrap final c w w' :
  DbcsAttr c = Single ->
  WriteCells_body uninit wrap final c w = Done w' ->
  it w' = tl (it w).
Proof.
  intros Hs. unfold WriteCells_body. rewrite Hs.
  cbn [IsTrailing IsLeading]. rewrite !andb_false_r.
  set (w1 := if behavior_eqb (TextAttrBehavior c) Current then w else _).
  assert (H1 : it w1 = it w).
  { subst w1. destruct (behavior_eqb _ Current); [reflexivity|].
    destruct (_ =? _); reflexivity. }
  clearbody w1. intros H.
  apply bind_Done in H as (w2 & H2 & H). inversion H; subst w'; clear H.
  cbn [it]. rewrite <- H1.
  destruct (behavior_eqb _ StoredOnly).
  - inversion H2; subst. reflexivity.
  - apply bind_Done in H2 as ([r' i'] & Hp & H2). cbn in H2.
    inversion H2; subst; clear H2. cbn [it].
    apply bind_Done in Hp as (r0 & _ & Hp). inversion Hp; subst. reflexivity.
Qed.

Lemma WriteCells_loop_Single columns wrap final : forall w w',
  Forall (fun c => DbcsAttr c = Single) (it w) ->
  0 <= currentIndex w -> final < 65535 ->
  Z.of_nat columns = final + 1 - currentIndex w ->
  WriteCells_loop uninit columns wrap final w = Done w' ->
  it w' = skipn columns (it w).
Proof.
  induction columns as [|n IH]; intros w w' Hall H0 Hf Hn H.
  - cbn in H. inversion H; subst. reflexivity.
  - cbn [WriteCells_loop] in H.
    destruct (it w) as [|c rest] eqn:Eit.
    { inversion H; subst. rewrite Eit. reflexivity. }
    replace (currentIndex w <=? final) with true in H
      by (symmetry; apply Z.leb_le; lia).
    apply bind_Done in H as (w1 & Hb & H).
    inversion Hall as [|? ? Hc Hrest]; subst.
    pose proof (WriteCells_body_Single _ _ _ _ _ Hc Hb) as Hi.
    pose proof (WriteCells_body_currentIndex _ _ _ _ _ Hb) as Hci.
    rewrite u16_small in Hci by (rewrite two_16; lia).
    rewrite Eit in Hi. cbn [tl] in Hi.
    rewrite (IH w1 w'); try lia; try assumption.
    + rewrite Hi. reflexivity.
    + rewrite Hi. exact Hrest.
Qed.

(** *** Cells that keep the current colour *)

Lemma WriteCells_body_Current wrap final c w w' :
  TextAttrBehavior c = Current ->
  WriteCells_body uninit wrap final c w = Done w' ->
  _attr (row w') = _attr (row w) /\ colorUses w' = colorUses w.
Proof.
  intros Hc. unfold WriteCells_body. rewrite Hc. cbn [behavior_eqb].
  unfold ClearCell, Replace_dbcs. intros H.
  apply bind_Done in H as (w2 & H2 & H). inversion H; subst w'; clear H.
  cbn [row colorUses].
  apply bind_Done in H2 as ([r' i'] & Hp & H2). cbn in H2.
  inversion H2; subst; clear H2. cbn [row colorUses].
  split; [|reflexivity].
  assert (Ha : _attr r' = _attr (row w)).
  { destruct (_ && _).
    { apply bind_Done in Hp as (r0 & Hr0 & Hp). inversion Hp; subst.
      apply Replace_frame in Hr0 as ((Ha & _) & _). exact Ha. }
    destruct (_ && _).
    { apply bind_Done in Hp as (r0 & Hr0 & Hp). inversion Hp; subst.
      apply Replace_frame in Hr0 as ((Ha & _) & _). exact Ha. }
    apply bind_Done in Hp as (r0 & Hr0 & Hp). inversion Hp; subst.
    apply Replace_frame in Hr0 as ((Ha & _) & _). exact Ha. }
  destruct wrap as [v|]; [|exact Ha].
  destruct (currentIndex w =? final); exact Ha.
Qed.

Lemma WriteCells_loop_Current columns wrap final : forall w w',
  Forall (fun c => TextAttrBehavior c = Current) (it w) ->
  WriteCells_loop uninit columns wrap final w = Done w' ->
  _attr (row w') = _attr (row w) /\ colorUses w' = colorUses w.
Proof.
  induction columns as [|n IH]; intros w w' Hall H.
  - cbn in H. inversion H; subst. auto.
  - cbn [WriteCells_loop] in H.
    destruct (it w) as [|c rest] eqn:Eit; [inversion H; subst; auto|].
    destruct (_ <=? _); [|inversion H; subst; auto].
    apply bind_Done in H as (w1 & Hb & H).
    inversion Hall as [|? ? Hc Hrest]; subst.
    pose proof (WriteCells_body_Current _ _ _ _ _ Hc Hb) as [Ha Hu].
    pose proof (WriteCells_body_it _ _ _ _ _ Hb) as Hi. rewrite Eit in Hi.
    destruct (IH w1 w') as [Ha' Hu']; [|exact H|split; congruence].
    destruct Hi as [-> | ->]; [constructor; assumption | exact Hrest].
Qed.

(** *** One code unit, read as a glyph or on its own *)

Lemma char_at_view r l :
  char_at r l = match view_text r (mkView l 1) with
                | Some [g] => Some g
                | _ => None
                end.
Proof.
  unfold char_at, view_text. cbn [data length_].
  change (2 * 1) with 2. unfold load_bytes.
  destruct ((0 <=? 2 * l) && (0 <=? 2)
            && (2 * l + 2 <=? Z.of_nat (length (_chars r)))) eqn:E;
    [|reflexivity].
  apply andb_prop in E as [E E3]. apply andb_prop in E as [E1 _].
  apply Z.leb_le in E1, E3.
  change (Z.to_nat 2) with 2%nat.
  pose proof (length_skipn (Z.to_nat (2 * l)) (_chars r)) as L.
  destruct (skipn (Z.to_nat (2 * l)) (_chars r)) as [|lo [|hi t]];
    cbn [length] in L; try lia.
  reflexivity.
Qed.

Lemma same_text_char_at r s i : same_text r s -> char_at r i = char_at s i.
Proof. intros (Hc & _). unfold char_at. now rewrite Hc. Qed.

Lemma nth_error_wstr_bytes_lo s k c :
  nth_error s k = Some c ->
  nth_error (wstr_bytes s) (2 * k) = Some (c mod 256).
Proof.
  revert k; induction s as [|a s IH]; intros [|k] H; try discriminate.
  - cbn in H. inversion H; subst. reflexivity.
  - cbn [nth_error] in H.
    replace (2 * S k)%nat with (S (S (2 * k))) by lia.
    cbn [wstr_bytes wchar_bytes app nth_error]. now apply IH.
Qed.

Lemma char_at_nth r i lo hi :
  0 <= i ->
  nth_error (_chars r) (Z.to_nat (2 * i)) = Some lo ->
  nth_error (_chars r) (Z.to_nat (2 * i + 1)) = Some hi ->
  char_at r i = Some (lo + 256 * hi).
Proof.
  intros H0 Hlo Hhi. unfold char_at, load_bytes.
  assert (Hb : 2 * i + 1 < Z.of_nat (length (_chars r))).
  { assert (nth_error (_chars r) (Z.to_nat (2 * i + 1)) <> None) by congruence.
    apply nth_error_Some in H. lia. }
  replace (0 <=? 2 * i) with true by (symmetry; apply Z.leb_le; lia).
  change (0 <=? 2) with true.
  replace (2 * i + 2 <=? Z.of_nat (length (_chars r))) with true
    by (symmetry; apply Z.leb_le; lia).
  cbn [andb]. change (Z.to_nat 2) with 2%nat.
  rewrite (skipn_nth_error_cons _ _ _ Hlo).
  replace (S (Z.to_nat (2 * i))) with (Z.to_nat (2 * i + 1)) by lia.
  rewrite (skipn_nth_error_cons _ _ _ Hhi). reflexivity.
Qed.

(** After [Reset] of a row with at least [width] code units in use, the
    code unit under every column is a blank. *)
Lemma Reset_char_at Attr r r' used c :
  consistent r ->
  index_at r (_indicesCount r) = Some used ->
  _indicesCount r <= used ->
  Reset Attr r = Done r' ->
  0 <= c < _indicesCount r ->
  char_at r' c = Some UNICODE_SPACE.
Proof.
  intros Hr Hu Hfull H Hc.
  pose proof (Reset_high_bytes _ _ _ _ c Hr Hu Hfull H Hc) as Hhi.
  apply Reset_Done in H as (used' & b & i & Hu' & Hb & _ & ->).
  rewrite Hu in Hu'. inversion Hu'; subst used'. clear Hu'.
  cbn [_chars] in Hhi.
  change (Some UNICODE_SPACE) with (Some (32 + 256 * 0)).
  apply char_at_nth; [lia | | exact Hhi].
  cbn [_chars].
  unfold wmemset, store_bytes in Hb.
  destruct (0 <=? used); [|discriminate].
  destruct (_ && _); [|discriminate].
  inversion Hb; subst b; clear Hb.
  change (Z.to_nat 0) with 0%nat. cbn [firstn app].
  rewrite nth_error_app1
    by (rewrite length_wstr_bytes, repeat_length; lia).
  replace (Z.to_nat (2 * c)) with (2 * Z.to_nat c)%nat by lia.
  rewrite (nth_error_wstr_bytes_lo _ _ UNICODE_SPACE); [reflexivity|].
  rewrite nth_error_repeat by lia. reflexivity.
Qed.

Lemma GlyphAt_own_offset r c :
  0 <= c < _indicesCount r -> _indicesCount r <= 65535 ->
  index_at r c = Some c -> index_at r (c + 1) = Some (c + 1) ->
  GlyphAt c r = Some (mkView c 1).
Proof.
  intros Hc Hw H0 H1. unfold GlyphAt.
  rewrite usize_small by (rewrite two_64; lia).
  replace (Z.min c (_indicesCount r - 1)) with c by lia.
  rewrite H0. rewrite index_at_nth in H1 by lia.
  rewrite (skipn_nth_error_cons _ _ _ H1). cbn [scan_ne].
  replace (c + 1 =? c) with false by (symmetry; apply Z.eqb_neq; lia).
  replace (c + 1 - c) with 1 by lia. reflexivity.
Qed.

(** *** The iterator over the glyphs *)

Lemma run_end_spec r cur n : forall e,
  0 <= e ->
  Z.of_nat (length (_indices r)) = _indicesCount r + 1 ->
  e + Z.of_nat n = _indicesCount r ->
  exists e',
    run_end r cur e n = Some e'
    /\ e <= e' <= _indicesCount r
    /\ ((0 < n)%nat -> e < e')
    /\ (forall j, e < j < e' -> index_at r j = Some cur)
    /\ (e' < _indicesCount r -> index_at r e' <> Some cur).
Proof.
  induction n as [|n IH]; intros e H0 Hlen Hn.
  - exists e. cbn [run_end]. repeat split; try lia; intros; lia.
  - cbn [run_end].
    destruct (index_at_Some r (e + 1)) as [v Hv]; [lia|]. rewrite Hv.
    destruct (v =? cur) eqn:E.
    + apply Z.eqb_eq in E. subst v.
      destruct (IH (e + 1)) as (e' & He & Hr & _ & Hu & Hm); try lia.
      exists e'. split; [exact He|]. split; [lia|]. split; [lia|].
      split; [|exact Hm].
      intros j Hj. destruct (Z.eq_dec j (e + 1)) as [-> | Hne]; [exact Hv|].
      apply Hu. lia.
    + apply Z.eqb_neq in E. exists (e + 1). split; [reflexivity|].
      split; [lia|]. split; [lia|]. split; [intros j Hj; lia|].
      intros _. rewrite Hv. congruence.
Qed.

Lemma RowTextIterator_incr_spec r i :
  Z.of_nat (length (_indices r)) = _indicesCount r + 1 ->
  0 <= _end i <= _indicesCount r ->
  (_end i < _indicesCount r ->
   0 < _end i -> index_at r (_end i - 1) <> index_at r (_end i)) ->
  exists i',
    RowTextIterator_incr r i = Some i'
    /\ _beg i' = _end i
    /\ _end i <= _end i' <= _indicesCount r
    /\ (_end i < _indicesCount r -> is_glyph_run r i').
Proof.
  intros Hlen He Hb. unfold RowTextIterator_incr.
  destruct (index_at_Some r (_end i)) as [cur Hcur]; [lia|]. rewrite Hcur.
  destruct (run_end_spec r cur (Z.to_nat (_indicesCount r - _end i)) (_end i))
    as (e' & Hrun & Hr & Hpos & Hu & Hm); try lia.
  rewrite Hrun. eexists. split; [reflexivity|]. cbn [_beg _end].
  split; [reflexivity|]. split; [lia|].
  intros Hlt. unfold is_glyph_run. cbn [_beg _end].
  split; [lia|]. split; [lia|]. split; [|split].
  - intros j Hj. destruct (Z.eq_dec j (_end i)) as [-> | Hne]; [reflexivity|].
    rewrite Hcur. apply Hu. lia.
  - intros Hlt'. rewrite Hcur. now apply Hm.
  - intros H0. now apply Hb.
Qed.

Lemma CharsRange_loop_spec r n : forall i,
  Z.of_nat (length (_indices r)) = _indicesCount r + 1 ->
  0 <= _beg i <= _indicesCount r ->
  (_beg i < _indicesCount r -> is_glyph_run r i) ->
  _indicesCount r - _beg i <= Z.of_nat n ->
  exists l,
    CharsRange_loop r i (mkIterator (_indicesCount r) (_indicesCount r)) n
    = Some l
    /\ tiles l (_beg i) (_indicesCount r)
    /\ Forall (is_glyph_run r) l.
Proof.
  induction n as [|n IH]; intros i Hlen Hb Hrun Hn.
  - assert (_beg i = _indicesCount r) as Heq by lia.
    cbn [CharsRange_loop]. unfold RowTextIterator_eqb. cbn [_beg].
    rewrite Heq, Z.eqb_refl. exists []. cbn. auto.
  - cbn [CharsRange_loop]. unfold RowTextIterator_eqb. cbn [_beg].
    destruct (_beg i =? _indicesCount r) eqn:E.
    + apply Z.eqb_eq in E. exists []. cbn. auto.
    + apply Z.eqb_neq in E.
      assert (Hi : is_glyph_run r i) by (apply Hrun; lia).
      destruct Hi as (Hbe & Hend & Hu & Hm & Hbd).
      destruct (RowTextIterator_incr_spec r i Hlen) as (i' & Hi' & Hb' & Hr' & Hg');
        [lia | |].
      { intros Hlt _. rewrite (Hu (_end i - 1)) by lia. intros Heq.
        apply (Hm Hlt). congruence. }
      rewrite Hi'.
      destruct (IH i') as (l & Hl & Ht & Hf); try assumption; try lia.
      { rewrite Hb'. exact Hg'. }
      rewrite Hl. cbn [option_map]. eexists. split; [reflexivity|].
      split.
      * cbn [tiles]. split; [reflexivity|]. rewrite <- Hb'. exact Ht.
      * constructor; [|exact Hf]. unfold is_glyph_run. auto.
Qed.

(** What iterating from [CharsBegin] to [CharsEnd] visits. *)
Lemma CharsRange_spec r :
  0 < _indicesCount r ->
  Z.of_nat (length (_indices r)) = _indicesCount r + 1 ->
  exists l,
    CharsRange r = Some l
    /\ tiles l 0 (_indicesCount r)
    /\ Forall (is_glyph_run r) l.
Proof.
  intros Hw Hlen. unfold CharsRange, CharsBegin, CharsEnd, RowTextIterator_ctor.
  destruct (RowTextIterator_incr_spec r (mkIterator 0 0) Hlen)
    as (b & Hb & Hb0 & Hbr & Hbg); cbn [_end]; [lia | intros; lia |].
  destruct (RowTextIterator_incr_spec r
              (mkIterator (_indicesCount r) (_indicesCount r)) Hlen)
    as (e & He & He0 & Her & _); cbn [_end]; [lia | intros; lia |].
  cbn [_end] in *. rewrite Hb, He.
  assert (e = mkIterator (_indicesCount r) (_indicesCount r)) as ->.
  { destruct e as [eb ee]. cbn [_beg _end] in *. f_equal; lia. }
  destruct (CharsRange_loop_spec r (Z.to_nat (_indicesCount r)) b Hlen)
    as (l & Hl & Ht & Hf); try lia.
  { intros _. apply Hbg. lia. }
  exists l. rewrite Hb0 in Ht. auto.
Qed.

Lemma tiles_Cols l : forall from to,
  tiles l from to -> fold_right Z.add 0 (map Cols l) = to - from.
Proof.
  induction l as [|i l IH]; intros from to H.
  - cbn in *. lia.
  - cbn [tiles] in H. destruct H as [Hb Ht].
    cbn [map fold_right]. rewrite (IH _ _ Ht). unfold Cols. lia.
Qed.

(** The scan of [GlyphAt] and [Replace] over columns that share the offset
    [lhs] stops at the first column with another offset. *)
Lemma scan_ne_run r lhs v e n : forall x,
  0 <= x -> Z.of_nat n = e - x ->
  (forall j, x <= j < e -> index_at r j = Some lhs) ->
  index_at r e = Some v -> v <> lhs ->
  scan_ne lhs (skipn (Z.to_nat x) (_indices r)) x = Some (v, e).
Proof.
  induction n as [|n IH]; intros x H0 Hn Hu He Hne.
  - assert (x = e) by lia. subst x.
    rewrite index_at_nth in He by lia.
    rewrite (skipn_nth_error_cons _ _ _ He). cbn [scan_ne].
    replace (v =? lhs) with false by (symmetry; apply Z.eqb_neq; lia).
    reflexivity.
  - pose proof (Hu x ltac:(lia)) as Hx. rewrite index_at_nth in Hx by lia.
    rewrite (skipn_nth_error_cons _ _ _ Hx). cbn [scan_ne].
    rewrite Z.eqb_refl.
    replace (S (Z.to_nat x)) with (Z.to_nat (x + 1)) by lia.
    apply IH; try lia; try assumption.
    intros j Hj. apply Hu. lia.
Qed.

Lemma DbcsAttrAt_total r k :
  0 < size r <= 65535 ->
  Z.of_nat (length (_indices r)) = size r + 1 ->
  0 <= k < size r ->
  exists a, DbcsAttrAt k r = Some a.
Proof.
  unfold size. intros Hw Hlen Hk. unfold DbcsAttrAt.
  rewrite usize_small by (rewrite two_64; lia).
  replace (Z.min k (_indicesCount r - 1)) with k by lia.
  destruct (index_at_Some r k) as [a Ha]; [lia|].
  destruct (index_at_Some r (k + 1)) as [q Hq]; [lia|].
  rewrite Ha, Hq.
  replace (k <? _indicesCount r) with true by (symmetry; apply Z.ltb_lt; lia).
  destruct (0 <? k) eqn:E0; [|eauto].
  apply Z.ltb_lt in E0.
  destruct (index_at_Some r (k - 1)) as [p Hp]; [lia|]. rewrite Hp.
  destruct (p =? a); eauto.
Qed.

Lemma DbcsAttrAt_Single r k :
  0 < size r <= 65535 ->
  Z.of_nat (length (_indices r)) = size r + 1 ->
  0 <= k < size r ->
  ~ (0 < k /\ index_at r (k - 1) = index_at r k) ->
  index_at r k <> index_at r (k + 1) ->
  DbcsAttrAt k r = Some Single.
Proof.
  intros Hw Hlen Hk Hnt Hnl.
  destruct (DbcsAttrAt_total r k Hw Hlen Hk) as [a Ha].
  pose proof (DbcsAttrAt_classes r k Hw Hlen Hk) as [Ht Hl].
  destruct a; [exact Ha | |].
  - apply Hl in Ha. tauto.
  - apply Ht in Ha. tauto.
Qed.

(** *** The flags through the cell writer *)



End Facts.

(** [Reset] leaves a blank row blank. *)
Example Reset_blank_row :
  Reset 7 (blank_row 4 7) = Done (blank_row 4 7).
Proof. reflexivity. Qed.

(** * Defects of the text store *)

Section Defects.

Variable uninit : nat -> Z.

(** C1. The invariant "the offsets are non-decreasing" does not survive
    [Replace]: on a blank row of five columns, replacing column 0 by a
    glyph of three code units completes and leaves the offset table
    [0, 65535, 0, 1, 2, 3].  The offsets after the replaced glyph are
    shifted by [diff = old length - new length], the opposite of the
    direction in which the text after it was moved. *)
Theorem C1_Replace_breaks_monotone_indices :
  (r <- Replace uninit 0 1 [97; 98; 99] (blank_row 5 7) ;;
   Done (_indices r, non_decreasing (_indices r), rle.size (_attr r)))
  = Done ([0; 65535; 0; 1; 2; 3], false, 5%nat).
Proof. vm_compute. reflexivity. Qed.

(** C2. [Reset] does not always leave blank text: it blanks
    [_indices[_indicesCount]] code units, the used length before the call,
    and that can be less than the width.  After writing [x] in column 4
    and a glyph of two code units in column 0 of a blank row of width 5,
    the used length is 4 and the text after [Reset] is four blanks
    followed by [x]; offsets and attributes are as claimed. *)
Theorem C2_Reset_leaves_stale_text :
  (r <- Replace uninit 4 1 [120] (blank_row 5 7) ;;
   r <- Replace uninit 0 1 [97; 98] r ;;
   used <- access (index_at r (_indicesCount r)) ;;
   r <- Reset 9 r ;;
   Done (used, full_text r, _indices r, _attr r))
  = Done (4, Some [32; 32; 32; 32; 120], [0; 1; 2; 3; 4; 5], [(9, 5%nat)]).
Proof. vm_compute. reflexivity. Qed.

(** C3. A single-column glyph is not read back as written.  A glyph of
    two code units (a surrogate pair) written in column 0 of a blank row
    reads back as one code unit, and a glyph of one code unit above
    U+00FF (CYRILLIC CAPITAL LETTER ZHE) reads back with its high byte
    lost: the final [memcpy] copies [chars.size()] bytes, not code
    units. *)
Theorem C3_glyph_not_read_back :
  (r <- Replace uninit 0 1 [55349; 56632] (blank_row 3 7) ;;
   Done (GlyphAt 0 r, glyph_text 0 r))
  = Done (Some (mkView 0 1), Some [55349])
  /\ (r <- Replace uninit 0 1 [1046] (blank_row 3 7) ;;
      Done (GlyphAt 0 r, glyph_text 0 r))
     = Done (Some (mkView 0 1), Some [22]).
Proof. split; vm_compute; reflexivity. Qed.

(** C7. A cell written with [TextAttributeBehavior::Current] does not
    always keep the attribute of its column: the pending run is committed
    over every column between [colorStarts] and [currentIndex].  Writing
    three cells, the middle one in [Current] mode, over a blank row whose
    attribute is 7 leaves attribute 1 in column 1. *)
Theorem C7_Current_cell_is_recoloured :
  GetAttrByColumn 1 (blank_row 3 7) = Some 7
  /\ (' (r, _) <- WriteCells uninit
                   [mkCell [97] Single 1 Stored; mkCell [98] Single 1 Current;
                    mkCell [99] Single 1 Stored] 0 None None (blank_row 3 7) ;;
      Done (GetAttrByColumn 1 r, _attr r))
     = Done (Some 1, [(1, 3%nat)]).
Proof. split; vm_compute; reflexivity. Qed.

(** C9. [ContainsText] answers whether the used text contains a blank:
    it is true of a blank row and false of a row that holds only the
    letter [a]. *)
Theorem C9_ContainsText_finds_blanks :
  ContainsText (blank_row 1 7) = Some true
  /\ (r <- Replace uninit 0 1 [97] (blank_row 1 7) ;;
      Done (full_text r, ContainsText r))
     = Done (Some [97], Some false).
Proof. split; vm_compute; reflexivity. Qed.

End Defects.

(** * Arguments out of range *)

Section OutOfRange.

Variable uninit : nat -> Z.


End OutOfRange.



(** * A glyph of two columns *)

Section WideGlyph.

Variable uninit : nat -> Z.


End WideGlyph.



(** * Glyph halves at the ends of the row *)

Section RowEnds.

Variable uninit : nat -> Z.


End RowEnds.



(** * The whole text of the row *)

Section WholeText.

Variable uninit : nat -> Z.

(** C10.  In every row the operations reach, [GetText] is the view of
    [_indicesCount] code units at the start of the buffer, it lies inside
    the buffer, the text it denotes has exactly that many code units and is
    the beginning of the buffer; the offset table has no part in it. *)
Theorem C10_GetText_spans_the_width (r : ROW) (Hr : reachable uninit r) :
  GetText r = mkView 0 (size r)
  /\ (exists s,
        full_text r = Some s
        /\ Z.of_nat (length s) = size r
        /\ s = firstn (Z.to_nat (size r)) (bytes_wstr (_chars r)))
  /\ (forall i, full_text (with_indices r i) = full_text r).
Proof.
  apply reachable_consistent in Hr.
  destruct (full_text_consistent r Hr) as [Ht Hl].
  split; [reflexivity|]. split; [|reflexivity].
  eexists. split; [exact Ht|]. split; [exact Hl | reflexivity].
Qed.

End WholeText.

Lemma C10_GetText_spans_the_width_witness :
  match Replace zero_heap 0 2 [19968] (blank_row 3 7) with
  | Done r =>
      index_at r 3 = Some 4
      /\ exists s, full_text r = Some s /\ Z.of_nat (length s) = 3
  | _ => False
  end.
Proof.
  destruct (Replace zero_heap 0 2 [19968] (blank_row 3 7))
    as [r | e s |] eqn:E; [|vm_compute in E; discriminate ..].
  assert (Hr : reachable zero_heap r).
  { apply (reach_Replace zero_heap (blank_row 3 7) 0 2 [19968]).
    - apply reach_blank. split; [reflexivity | discriminate].
    - reflexivity.
    - rewrite E. reflexivity. }
  destruct (C10_GetText_spans_the_width zero_heap r Hr)
    as (_ & (s & Hs & Hl & _) & _).
  vm_compute in E. inversion E; subst r. clear E.
  split; [reflexivity|]. exists s. split; [exact Hs | exact Hl].
Defined.

(** * The leading half of a glyph at the right limit *)

Section RightLimit.

Variable uninit : nat -> Z.


End RightLimit.



(** * Further properties of the row *)

(** ** Reset *)

(** X1.  After [Reset] every offset is its own column: each column is
    [Single], its glyph is the one code unit at its own position, and the
    flags and the rendition are back to their defaults. *)
Theorem Reset_columns_are_single (Attr : TextAttribute) (r r' : ROW) (c : Z)
  (Hr : consistent r)
  (Hreset : Reset Attr r = Done r')
  (Hc : 0 <= c < size r) :
  index_at r' c = Some c
  /\ DbcsAttrAt c r' = Some Single
  /\ GlyphAt c r' = Some (mkView c 1)
  /\ size r' = size r
  /\ _wrapForced r' = false
  /\ _doubleBytePadded r' = false
  /\ _lineRendition r' = SingleWidth.
Proof.
  unfold size in *.
  pose proof (width_range r Hr) as Hw.
  destruct (Reset_shape _ _ _ Hreset) as (Hn & _ & Hl & Hwf & Hp).
  assert (Hi : forall k, 0 <= k <= _indicesCount r -> index_at r' k = Some k)
    by (intros k Hk; apply (Reset_index_at Attr r r'); assumption).
  split; [apply Hi; lia|].
  split.
  - unfold DbcsAttrAt. rewrite Hn.
    rewrite usize_small by (rewrite two_64; lia).
    replace (Z.min c (_indicesCount r - 1)) with c by lia.
    rewrite (Hi c), (Hi (c + 1)) by lia.
    replace (c <? _indicesCount r) with true by (symmetry; apply Z.ltb_lt; lia).
    replace (c + 1 =? c) with false by (symmetry; apply Z.eqb_neq; lia).
    destruct (0 <? c) eqn:E0; [|reflexivity].
    apply Z.ltb_lt in E0. rewrite (Hi (c - 1)) by lia.
    replace (c - 1 =? c) with false by (symmetry; apply Z.eqb_neq; lia).
    reflexivity.
  - split; [|auto].
    unfold GlyphAt. rewrite Hn.
    rewrite usize_small by (rewrite two_64; lia).
    replace (Z.min c (_indicesCount r - 1)) with c by lia.
    rewrite (Hi c) by lia.
    pose proof (Hi (c + 1)) as H1. rewrite index_at_nth in H1 by lia.
    rewrite (skipn_nth_error_cons _ _ _ (H1 ltac:(lia))). cbn [scan_ne].
    replace (c + 1 =? c) with false by (symmetry; apply Z.eqb_neq; lia).
    replace (c + 1 - c) with 1 by lia. reflexivity.
Qed.

Lemma Reset_columns_are_single_witness :
  match Reset 9 (blank_row 3 7) with
  | Done r' => DbcsAttrAt 2 r' = Some Single /\ GlyphAt 2 r' = Some (mkView 2 1)
  | _ => False
  end.
Proof.
  destruct (Reset 9 (blank_row 3 7)) as [r' | e s |] eqn:E;
    [|vm_compute in E; discriminate ..].
  refine ((fun H => conj (proj1 (proj2 H)) (proj1 (proj2 (proj2 H))))
          (Reset_columns_are_single 9 (blank_row 3 7) r' 2 _ E _)).
  - apply blank_row_consistent. split; [reflexivity | discriminate].
  - vm_compute. split; [discriminate | reflexivity].
Defined.

(** X2.  If at least [width] code units were in use, the whole text is
    blank after [Reset]. *)
Theorem Reset_blanks_a_full_row (Attr : TextAttribute) (r r' : ROW) (used : Z)
  (Hr : consistent r)
  (Hused : used_length r = Some used)
  (Hfull : size r <= used)
  (Hreset : Reset Attr r = Done r') :
  full_text r' = Some (repeat UNICODE_SPACE (Z.to_nat (size r))).
Proof. eapply Reset_full_text; eauto. Qed.

Lemma Reset_blanks_a_full_row_witness :
  match Reset 9 (blank_row 3 7) with
  | Done r' => full_text r' = Some [32; 32; 32]
  | _ => False
  end.
Proof.
  destruct (Reset 9 (blank_row 3 7)) as [r' | e s |] eqn:E;
    [|vm_compute in E; discriminate ..].
  apply (Reset_blanks_a_full_row 9 (blank_row 3 7) r' 3).
  - apply blank_row_consistent. split; [reflexivity | discriminate].
  - reflexivity.
  - vm_compute. discriminate.
  - exact E.
Defined.

(** X3.  A second [Reset] always returns, and then the whole text is blank,
    whatever the first one left behind. *)
Theorem Reset_twice_blanks (a b : TextAttribute) (r r1 : ROW)
  (Hr : consistent r)
  (Hreset : Reset a r = Done r1) :
  exists r2,
    Reset b r1 = Done r2
    /\ full_text r2 = Some (repeat UNICODE_SPACE (Z.to_nat (size r)))
    /\ _indices r2 = _indices r1.
Proof.
  pose proof (Reset_Done_consistent _ _ _ Hr Hreset) as Hr1.
  pose proof (width_range r Hr) as Hw.
  destruct (Reset_shape _ _ _ Hreset) as (Hn & Hcap & _).
  assert (Hu : index_at r1 (_indicesCount r1) = Some (_indicesCount r1)).
  { rewrite Hn. apply (Reset_index_at a r r1); [exact Hr | exact Hreset | lia]. }
  destruct (Reset_returns b r1 _ Hr1 Hu) as [r2 H2];
    [apply (capacity_range r1 Hr1)|].
  exists r2. split; [exact H2|]. split.
  - unfold size. rewrite <- Hn.
    eapply Reset_full_text; eauto. lia.
  - apply Reset_Done in H2 as (u2 & c2 & i2 & _ & _ & Hi2 & ->).
    apply Reset_Done in Hreset as (u1 & c1 & i1 & _ & _ & Hi1 & ->).
    cbn [_indices _indicesCount] in *.
    unfold iota in *.
    destruct (_ && _) in Hi1; [|discriminate].
    destruct (_ && _) eqn:E2 in Hi2; [|discriminate].
    inversion Hi1; subst i1. inversion Hi2; subst i2.
    pose proof (table_length r Hr) as Hl.
    rewrite (skipn_all2 (_indices r)) by lia. rewrite !app_nil_r.
    rewrite skipn_all2 by (rewrite length_map, length_seq; lia).
    now rewrite app_nil_r.
Qed.

Lemma Reset_twice_blanks_witness :
  match Replace zero_heap 4 1 [120] (blank_row 5 7) with
  | Done r0 =>
      match Replace zero_heap 0 1 [97; 98] r0 with
      | Done r =>
          match Reset 9 r with
          | Done r1 =>
              full_text r1 = Some [32; 32; 32; 32; 120]
              /\ exists r2, Reset 9 r1 = Done r2
                            /\ full_text r2 = Some [32; 32; 32; 32; 32]
          | _ => False
          end
      | _ => False
      end
  | _ => False
  end.
Proof.
  destruct (Replace zero_heap 4 1 [120] (blank_row 5 7))
    as [r0 | e s |] eqn:E0; [|vm_compute in E0; discriminate ..].
  assert (H0 : reachable zero_heap r0).
  { apply (reach_Replace zero_heap (blank_row 5 7) 4 1 [120]);
      [apply reach_blank; split; [reflexivity | discriminate]
      | reflexivity | rewrite E0; reflexivity]. }
  vm_compute in E0. inversion E0; subst r0; clear E0.
  match goal with |- match ?m with _ => _ end =>
    destruct m as [r | e s |] eqn:E end;
    [|vm_compute in E; discriminate ..].
  assert (H : reachable zero_heap r).
  { eapply reach_Replace; [exact H0 | | rewrite E; reflexivity]. reflexivity. }
  apply reachable_consistent in H.
  vm_compute in E. inversion E; subst r; clear E.
  match goal with |- match ?m with _ => _ end =>
    destruct m as [r1 | e s |] eqn:E1 end;
    [|vm_compute in E1; discriminate ..].
  destruct (Reset_twice_blanks 9 9 _ r1 H E1) as (r2 & H2 & Ht & _).
  split.
  - vm_compute in E1. inversion E1; subst r1. reflexivity.
  - exists r2. split; [exact H2 | exact Ht].
Defined.

(** ** The text operations and the rest of the row *)

Section TextOperations.

Variable uninit : nat -> Z.

(** X4.  The text [Replace] never touches the attributes, the flags, the
    rendition or the width, and it never shrinks the buffer. *)
Theorem Replace_leaves_the_rest_alone (x width : Z) (chars : list Z)
  (r r' : ROW)
  (Hdone : Replace uninit x width chars r = Done r') :
  _attr r' = _attr r
  /\ _lineRendition r' = _lineRendition r
  /\ _wrapForced r' = _wrapForced r
  /\ _doubleBytePadded r' = _doubleBytePadded r
  /\ size r' = size r
  /\ _charsCapacity r <= _charsCapacity r'.
Proof.
  apply Replace_frame in Hdone as ((Ha & Hl & Hw & Hp & Hn) & Hc).
  unfold size. auto 7.
Qed.

(** X5.  [ClearColumn] changes nothing when it throws: for a column at or
    past the width it throws [E_INVALIDARG], for a column inside the row it
    can only throw [bad_alloc], and in both cases the row is the one it was
    called on. *)
Theorem ClearColumn_throws_before_any_change (column : Z) (r s : ROW)
  (e : exn)
  (Hthrown : ClearColumn uninit column r = Thrown e s) :
  s = r
  /\ (e = E_INVALIDARG /\ size r <= column
      \/ e = bad_alloc /\ column < size r).
Proof.
  unfold ClearColumn in Hthrown.
  destruct (size r <=? column) eqn:E.
  - apply Z.leb_le in E. inversion Hthrown; subst. auto.
  - apply Z.leb_gt in E. unfold ClearCell in Hthrown.
    apply Replace_Thrown in Hthrown as [-> ->]. auto.
Qed.

(** X6.  On every row the operations reach, the code units in use fit the
    buffer, and [Reset] returns. *)
Theorem Reset_returns_on_reachable_rows (Attr : TextAttribute) (r : ROW)
  (Hr : reachable uninit r) :
  (exists used,
      used_length r = Some used /\ 0 <= used <= _charsCapacity r)
  /\ exists r', Reset Attr r = Done r'.
Proof.
  pose proof (reachable_consistent uninit r Hr) as Hc.
  destruct (reachable_used_fits uninit r Hr) as (used & Hu & Hcap).
  pose proof (index_at_range _ _ _ (table_range r Hc) Hu) as Ru.
  split; [exists used; split; [exact Hu | lia]|].
  eapply Reset_returns; eauto.
Qed.

End TextOperations.

Lemma Replace_leaves_the_rest_alone_witness :
  match Replace zero_heap 0 2 [19968] (blank_row 3 7) with
  | Done r' => _attr r' = [(7, 3%nat)] /\ 3 <= _charsCapacity r'
  | _ => False
  end.
Proof.
  destruct (Replace zero_heap 0 2 [19968] (blank_row 3 7))
    as [r' | e s |] eqn:E; [|vm_compute in E; discriminate ..].
  destruct (Replace_leaves_the_rest_alone zero_heap 0 2 [19968]
              (blank_row 3 7) r' E) as (Ha & _ & _ & _ & _ & Hc).
  split; [exact Ha | exact Hc].
Defined.

Lemma ClearColumn_throws_before_any_change_witness :
  ClearColumn zero_heap 5 (blank_row 3 7) = Thrown E_INVALIDARG (blank_row 3 7)
  /\ size (blank_row 3 7) <= 5.
Proof.
  assert (H : ClearColumn zero_heap 5 (blank_row 3 7)
              = Thrown E_INVALIDARG (blank_row 3 7)) by reflexivity.
  split; [exact H|].
  destruct (ClearColumn_throws_before_any_change zero_heap 5
              (blank_row 3 7) (blank_row 3 7) E_INVALIDARG H)
    as (_ & [[_ Hs] | [He _]]); [exact Hs | discriminate He].
Defined.

Lemma Reset_returns_on_reachable_rows_witness :
  match Replace zero_heap 0 2 [19968] (blank_row 3 7) with
  | Done r => exists r', Reset 9 r = Done r'
  | _ => False
  end.
Proof.
  destruct (Replace zero_heap 0 2 [19968] (blank_row 3 7))
    as [r | e s |] eqn:E; [|vm_compute in E; discriminate ..].
  apply (Reset_returns_on_reachable_rows zero_heap 9 r).
  apply (reach_Replace zero_heap (blank_row 3 7) 0 2 [19968]).
  - apply reach_blank. split; [reflexivity | discriminate].
  - reflexivity.
  - rewrite E. reflexivity.
Defined.

(** ** Measuring the text *)

(** X7.  [MeasureLeft] returns the number of blanks the text in use starts
    with: every code unit before the result is a blank, and the one at the
    result, if there is one, is not. *)
Theorem MeasureLeft_counts_leading_blanks (r : ROW) (used : Z)
  (Hr : consistent r)
  (Hused : used_length r = Some used)
  (Hfits : used <= _charsCapacity r) :
  exists m,
    MeasureLeft r = Some m
    /\ 0 <= m <= used
    /\ (forall j, 0 <= j < m -> char_at r j = Some UNICODE_SPACE)
    /\ (m < used -> exists c, char_at r m = Some c /\ c <> UNICODE_SPACE).
Proof.
  pose proof (index_at_range _ _ _ (table_range r Hr) Hused) as Ru.
  pose proof (buffer_length r Hr) as Hb.
  unfold MeasureLeft. unfold used_length in Hused. rewrite Hused.
  destruct (MeasureLeft_loop_spec r (Z.to_nat used) 0) as (m & Hm & H1 & H2 & H3);
    [lia | lia |].
  exists m. split; [exact Hm|]. split; [lia|]. split; [exact H2|].
  intros Hlt. apply H3. lia.
Qed.

Lemma MeasureLeft_counts_leading_blanks_witness :
  match Replace zero_heap 2 1 [97] (blank_row 4 7) with
  | Done r => exists m, MeasureLeft r = Some m /\ 0 <= m <= 4
  | _ => False
  end.
Proof.
  destruct (Replace zero_heap 2 1 [97] (blank_row 4 7))
    as [r | e s |] eqn:E; [|vm_compute in E; discriminate ..].
  assert (Hr : reachable zero_heap r).
  { apply (reach_Replace zero_heap (blank_row 4 7) 2 1 [97]);
      [apply reach_blank; split; [reflexivity | discriminate]
      | reflexivity | rewrite E; reflexivity]. }
  apply reachable_consistent in Hr.
  vm_compute in E. inversion E; subst r; clear E.
  destruct (MeasureLeft_counts_leading_blanks _ 4 Hr)
    as (m & Hm & Hrange & _); [reflexivity | vm_compute; discriminate |].
  exists m. split; [exact Hm | exact Hrange].
Defined.

(** X8.  With at least one code unit in use, [MeasureRight] returns the
    position after which the text in use is all blanks: every code unit
    after the result is a blank, and the one at the result is not, unless
    the result is 0; the code unit at position 0 is never looked at. *)
Theorem MeasureRight_finds_last_nonblank (r : ROW) (used : Z)
  (Hr : consistent r)
  (Hused : used_length r = Some used)
  (Hpos : 0 < used)
  (Hfits : used <= _charsCapacity r) :
  exists m,
    MeasureRight r = Some m
    /\ 0 <= m < used
    /\ (forall j, m < j < used -> char_at r j = Some UNICODE_SPACE)
    /\ (0 < m -> exists c, char_at r m = Some c /\ c <> UNICODE_SPACE).
Proof.
  pose proof (buffer_length r Hr) as Hb.
  unfold MeasureRight. unfold used_length in Hused. rewrite Hused.
  replace (used <=? 0) with false by (symmetry; apply Z.leb_gt; lia).
  destruct (MeasureRight_loop_spec r (Z.to_nat (used - 1)))
    as (m & Hm & H1 & H2 & H3); [lia|].
  exists m. split; [exact Hm|]. split; [lia|]. split; [|exact H3].
  intros j Hj. apply H2. lia.
Qed.

Lemma MeasureRight_finds_last_nonblank_witness :
  match Replace zero_heap 2 1 [97] (blank_row 4 7) with
  | Done r => exists m, MeasureRight r = Some m /\ 0 <= m < 4
  | _ => False
  end.
Proof.
  destruct (Replace zero_heap 2 1 [97] (blank_row 4 7))
    as [r | e s |] eqn:E; [|vm_compute in E; discriminate ..].
  assert (Hr : reachable zero_heap r).
  { apply (reach_Replace zero_heap (blank_row 4 7) 2 1 [97]);
      [apply reach_blank; split; [reflexivity | discriminate]
      | reflexivity | rewrite E; reflexivity]. }
  apply reachable_consistent in Hr.
  vm_compute in E. inversion E; subst r; clear E.
  destruct (MeasureRight_finds_last_nonblank _ 4 Hr)
    as (m & Hm & Hrange & _);
    [reflexivity | reflexivity | vm_compute; discriminate |].
  exists m. split; [exact Hm | exact Hrange].
Defined.

(** ** Writing into a column that holds one code unit *)

Section OneCodeUnit.

Variable uninit : nat -> Z.

(** X9.  Writing one code unit [t] over a column that holds one code unit
    returns, keeps the offset table and the capacity, and replaces the low
    byte of the stored code unit only: what is read back is [t] when [t] is
    below 256 and the high byte stored before was zero. *)
Theorem Replace_single_code_unit (r : ROW) (c l t hi : Z)
  (Hc : 0 <= c < size r)
  (Hw : size r <= 65535)
  (Hl : index_at r c = Some l)
  (Hnext : index_at r (c + 1) = Some (l + 1))
  (Hl0 : 0 <= l)
  (Hhi : nth_error (_chars r) (Z.to_nat (2 * l + 1)) = Some hi) :
  exists r',
    Replace uninit c 1 [t] r = Done r'
    /\ glyph_text c r' = Some [t mod 256 + 256 * hi]
    /\ (0 <= t < 256 -> hi = 0 -> glyph_text c r' = Some [t])
    /\ _indices r' = _indices r
    /\ _charsCapacity r' = _charsCapacity r.
Proof.
  destruct (Replace_one_unit uninit r c l t hi Hc Hw Hl Hnext Hl0 Hhi)
    as (r' & H & Hg & Hi & Hcap & _).
  exists r'. repeat split; try assumption.
  intros Ht H0. rewrite Hg. subst hi.
  rewrite Z.mod_small by lia. do 2 f_equal. lia.
Qed.

(** X10.  [ClearColumn] on a column of the row that holds one code unit
    with a zero high byte returns and leaves a blank glyph there; the
    offset table, the attributes and the flags are as before. *)
Theorem ClearColumn_blanks_a_single_code_unit (r : ROW) (c l : Z)
  (Hc : 0 <= c < size r)
  (Hw : size r <= 65535)
  (Hl : index_at r c = Some l)
  (Hnext : index_at r (c + 1) = Some (l + 1))
  (Hl0 : 0 <= l)
  (Hhi : nth_error (_chars r) (Z.to_nat (2 * l + 1)) = Some 0) :
  exists r',
    ClearColumn uninit c r = Done r'
    /\ glyph_text c r' = Some [UNICODE_SPACE]
    /\ _indices r' = _indices r
    /\ _attr r' = _attr r
    /\ _wrapForced r' = _wrapForced r
    /\ _doubleBytePadded r' = _doubleBytePadded r.
Proof.
  destruct (Replace_one_unit uninit r c l UNICODE_SPACE 0 Hc Hw Hl Hnext Hl0 Hhi)
    as (r' & H & Hg & Hi & _ & _).
  exists r'. unfold ClearColumn, ClearCell.
  replace (size r <=? c) with false by (symmetry; apply Z.leb_gt; lia).
  split; [exact H|]. split; [exact Hg|]. split; [exact Hi|].
  apply Replace_frame in H as ((Ha & _ & Hwf & Hp & _) & _). auto.
Qed.

(** X11.  After a [Reset] of a row with at least [width] code units in
    use, a code unit below 256 written at any column is read back by
    [GlyphAt] as it was written. *)
Theorem Reset_then_write_reads_back (Attr : TextAttribute) (r r1 : ROW)
  (used c t : Z)
  (Hr : consistent r)
  (Hused : used_length r = Some used)
  (Hfull : size r <= used)
  (Hreset : Reset Attr r = Done r1)
  (Hc : 0 <= c < size r)
  (Ht : 0 <= t < 256) :
  exists r2,
    Replace uninit c 1 [t] r1 = Done r2
    /\ glyph_text c r2 = Some [t]
    /\ DbcsAttrAt c r2 = DbcsAttrAt c r1.
Proof.
  unfold size, used_length in *.
  pose proof (width_range r Hr) as Hw.
  destruct (Reset_shape _ _ _ Hreset) as (Hn & _).
  destruct (Replace_one_unit uninit r1 c c t 0)
    as (r2 & H & Hg & Hi & _ & _); unfold size; try lia.
  - apply (Reset_index_at Attr r r1); auto. lia.
  - apply (Reset_index_at Attr r r1); auto. lia.
  - eapply Reset_high_bytes; eauto.
  - exists r2. split; [exact H|]. split.
    + rewrite Hg. rewrite Z.mod_small by lia. do 2 f_equal. lia.
    + apply Replace_frame in H as ((_ & _ & _ & _ & Hn2) & _).
      unfold DbcsAttrAt, index_at. now rewrite Hi, Hn2.
Qed.

End OneCodeUnit.

Lemma Replace_single_code_unit_witness :
  exists r',
    Replace zero_heap 1 1 [97] (blank_row 3 7) = Done r'
    /\ glyph_text 1 r' = Some [97].
Proof.
  destruct (Replace_single_code_unit zero_heap (blank_row 3 7) 1 1 97 0)
    as (r' & H & _ & Hg & _).
  - vm_compute. split; [discriminate | reflexivity].
  - vm_compute. discriminate.
  - reflexivity.
  - reflexivity.
  - discriminate.
  - reflexivity.
  - exists r'. split; [exact H|]. apply Hg; [|reflexivity].
    split; [discriminate | reflexivity].
Defined.

Lemma ClearColumn_blanks_a_single_code_unit_witness :
  match Replace zero_heap 1 1 [97] (blank_row 3 7) with
  | Done r =>
      glyph_text 1 r = Some [97]
      /\ exists r', ClearColumn zero_heap 1 r = Done r'
                    /\ glyph_text 1 r' = Some [32]
  | _ => False
  end.
Proof.
  destruct (Replace zero_heap 1 1 [97] (blank_row 3 7))
    as [r | e s |] eqn:E; [|vm_compute in E; discriminate ..].
  vm_compute in E. inversion E; subst r; clear E.
  split; [reflexivity|].
  match goal with |- exists r', ClearColumn _ _ ?r = _ /\ _ =>
    destruct (ClearColumn_blanks_a_single_code_unit zero_heap r 1 1)
      as (r' & H & Hg & _) end.
  - vm_compute. split; [discriminate | reflexivity].
  - vm_compute. discriminate.
  - reflexivity.
  - reflexivity.
  - discriminate.
  - reflexivity.
  - exists r'. split; [exact H | exact Hg].
Defined.

Lemma Reset_then_write_reads_back_witness :
  match Reset 9 (blank_row 3 7) with
  | Done r1 =>
      exists r2, Replace zero_heap 2 1 [122] r1 = Done r2
                 /\ glyph_text 2 r2 = Some [122]
  | _ => False
  end.
Proof.
  destruct (Reset 9 (blank_row 3 7)) as [r1 | e s |] eqn:E;
    [|vm_compute in E; discriminate ..].
  destruct (Reset_then_write_reads_back zero_heap 9 (blank_row 3 7) r1 3 2 122)
    as (r2 & H & Hg & _).
  - apply blank_row_consistent. split; [reflexivity | discriminate].
  - reflexivity.
  - vm_compute. discriminate.
  - exact E.
  - vm_compute. split; [discriminate | reflexivity].
  - split; [discriminate | reflexivity].
  - exists r2. split; [exact H | exact Hg].
Defined.

(** ** The cell writer and its source *)

Section CellSource.

Variable uninit : nat -> Z.

(** X12.  The iterator [WriteCells] returns is what is left of the one it
    was given after at most one cell per column from [index] to the right
    limit: cells are never skipped, reordered or taken twice. *)
Theorem WriteCells_returns_the_rest (i i' : OutputCellIterator) (index : Z)
  (wrap : option bool) (limitRight : option Z) (r r' : ROW)
  (Hdone : WriteCells uninit i index wrap limitRight r = Done (r', i')) :
  exists k,
    (k <= Z.to_nat (finalColumn limitRight r + 1 - u16 index))%nat
    /\ i' = skipn k i.
Proof.
  unfold WriteCells in Hdone.
  destruct (_ <=? _); [discriminate|].
  destruct (_ <=? _); [discriminate|].
  apply bind_Done in Hdone as (w & Hloop & Hend).
  apply WriteCells_loop_suffix in Hloop as (k & Hk & Hs).
  inversion Hend; subst. exists k. split; [exact Hk | exact Hs].
Qed.

(** X13.  A source of single-column cells is consumed one cell per column:
    when the call returns, exactly as many cells are gone as there are
    columns from [index] to the right limit, or all of them. *)
Theorem WriteCells_single_cells_one_per_column (i i' : OutputCellIterator)
  (index : Z) (wrap : option bool) (limitRight : option Z) (r r' : ROW)
  (Hw : 0 < size r <= 65535)
  (Hidx : 0 <= index <= finalColumn limitRight r)
  (Hsingle : Forall (fun c => DbcsAttr c = Single) i)
  (Hdone : WriteCells uninit i index wrap limitRight r = Done (r', i')) :
  i' = skipn (Z.to_nat (finalColumn limitRight r + 1 - index)) i.
Proof.
  unfold WriteCells in Hdone.
  destruct (size r <=? index) eqn:E1; [discriminate|].
  destruct (size r <=? match limitRight with Some l => l | None => 0 end)
    eqn:E2; [discriminate|].
  apply Z.leb_gt in E1, E2.
  assert (Hfinal : finalColumn limitRight r < size r).
  { unfold finalColumn. destruct limitRight as [l|]; [exact E2|].
    rewrite usize_small by (unfold size in *; rewrite two_64; lia). lia. }
  rewrite (u16_small index) in Hdone by (rewrite two_16; lia).
  apply bind_Done in Hdone as (w & Hloop & Hend).
  inversion Hend; subst; clear Hend.
  apply WriteCells_loop_Single in Hloop; [exact Hloop | exact Hsingle | | |];
    cbn [WriteCells_begin currentIndex];
    rewrite ?u16_small by (rewrite two_16; lia); lia.
Qed.

(** X14.  If every cell of the source is in [Current] mode, [WriteCells]
    leaves the attributes of the row exactly as they were. *)
Theorem WriteCells_Current_cells_keep_attributes (i i' : OutputCellIterator)
  (index : Z) (wrap : option bool) (limitRight : option Z) (r r' : ROW)
  (Hcurrent : Forall (fun c => TextAttrBehavior c = Current) i)
  (Hdone : WriteCells uninit i index wrap limitRight r = Done (r', i')) :
  _attr r' = _attr r.
Proof.
  unfold WriteCells in Hdone.
  destruct (_ <=? _); [discriminate|].
  destruct (_ <=? _); [discriminate|].
  apply bind_Done in Hdone as (w & Hloop & Hend).
  apply WriteCells_loop_Current in Hloop as [Ha Hu]; [|exact Hcurrent].
  cbn [WriteCells_begin row colorUses] in Ha, Hu.
  unfold WriteCells_end in Hend. rewrite Hu in Hend. cbn in Hend.
  inversion Hend; subst. exact Ha.
Qed.

(** X15.  With an exhausted source [WriteCells] still checks its columns,
    and then returns the row as it is. *)
Theorem WriteCells_of_nothing (index : Z) (wrap : option bool)
  (limitRight : option Z) (r : ROW) :
  WriteCells uninit [] index wrap limitRight r
  = if (size r <=? index)
       || (size r <=? match limitRight with Some l => l | None => 0 end)
    then Thrown E_INVALIDARG r
    else Done (r, []).
Proof.
  unfold WriteCells.
  destruct (size r <=? index); [reflexivity|].
  destruct (size r <=? _); [reflexivity|]. cbn [orb].
  destruct (Z.to_nat _); reflexivity.
Qed.

End CellSource.

Lemma WriteCells_returns_the_rest_witness :
  match WriteCells zero_heap four_letters 0 None None (blank_row 3 7) with
  | Done (r', i') => exists k, (k <= 3)%nat /\ i' = skipn k four_letters
  | _ => False
  end.
Proof.
  destruct (WriteCells zero_heap four_letters 0 None None (blank_row 3 7))
    as [[r' i'] | e s |] eqn:E; [|vm_compute in E; discriminate ..].
  exact (WriteCells_returns_the_rest zero_heap four_letters i' 0 None None
           (blank_row 3 7) r' E).
Defined.

Lemma WriteCells_single_cells_one_per_column_witness :
  match WriteCells zero_heap four_letters 0 None None (blank_row 3 7) with
  | Done (r', i') => i' = [mkCell [100] Single 1 Stored]
  | _ => False
  end.
Proof.
  destruct (WriteCells zero_heap four_letters 0 None None (blank_row 3 7))
    as [[r' i'] | e s |] eqn:E; [|vm_compute in E; discriminate ..].
  rewrite (WriteCells_single_cells_one_per_column zero_heap four_letters i'
             0 None None (blank_row 3 7) r'); [reflexivity | | | | exact E].
  - vm_compute. split; [reflexivity | discriminate].
  - vm_compute. split; discriminate.
  - repeat constructor.
Defined.

Lemma WriteCells_Current_cells_keep_attributes_witness :
  match WriteCells zero_heap two_letters_current 0 None None (blank_row 3 7)
  with
  | Done (r', i') => _attr r' = [(7, 3%nat)]
  | _ => False
  end.
Proof.
  destruct (WriteCells zero_heap two_letters_current 0 None None
              (blank_row 3 7))
    as [[r' i'] | e s |] eqn:E; [|vm_compute in E; discriminate ..].
  apply (WriteCells_Current_cells_keep_attributes zero_heap
           two_letters_current i' 0 None None (blank_row 3 7) r'); [|exact E].
  repeat constructor.
Defined.

(** ** Reading columns *)

(** X16.  The readers clamp their column: for a column at or past the
    width, [GlyphAt], [DbcsAttrAt] and [DelimiterClassAt] answer as for the
    last column. *)
Theorem readers_clamp_the_column (r : ROW) (column : Z) (delimiters : list Z)
  (Hw : 0 < size r < 2 ^ 64)
  (Hcol : size r - 1 <= column) :
  GlyphAt column r = GlyphAt (size r - 1) r
  /\ DbcsAttrAt column r = DbcsAttrAt (size r - 1) r
  /\ DelimiterClassAt column delimiters r
     = DelimiterClassAt (size r - 1) delimiters r.
Proof.
  unfold size in *. unfold GlyphAt, DbcsAttrAt, DelimiterClassAt.
  rewrite usize_small by lia.
  replace (Z.min column (_indicesCount r - 1)) with (_indicesCount r - 1) by lia.
  replace (Z.min (_indicesCount r - 1) (_indicesCount r - 1))
    with (_indicesCount r - 1) by lia.
  auto.
Qed.

Lemma readers_clamp_the_column_witness :
  GlyphAt 1000 (blank_row 3 7) = Some (mkView 2 1)
  /\ DbcsAttrAt 1000 (blank_row 3 7) = Some Single.
Proof.
  destruct (readers_clamp_the_column (blank_row 3 7) 1000 [])
    as (Hg & Hd & _).
  - vm_compute. split; reflexivity.
  - vm_compute. discriminate.
  - rewrite Hg, Hd. split; reflexivity.
Defined.

(** X17.  The halves of a glyph come in order: a column classified
    [Trailing] is never the first one and the column before it is
    [Leading] or [Trailing], never [Single]; a column classified [Leading]
    that is not the last one is followed by a [Trailing] column. *)
Theorem halves_come_in_order (r : ROW) (c : Z)
  (Hw : 0 < size r <= 65535)
  (Hlen : Z.of_nat (length (_indices r)) = size r + 1)
  (Hc : 0 <= c < size r) :
  (DbcsAttrAt c r = Some Trailing ->
   0 < c
   /\ (DbcsAttrAt (c - 1) r = Some Leading
       \/ DbcsAttrAt (c - 1) r = Some Trailing))
  /\ (DbcsAttrAt c r = Some Leading -> c < size r - 1 ->
      DbcsAttrAt (c + 1) r = Some Trailing).
Proof.
  pose proof (DbcsAttrAt_classes r c Hw Hlen Hc) as [Ht Hl].
  split.
  - intros H. apply Ht in H as [Hpos Heq]. split; [exact Hpos|].
    assert (Hc' : 0 <= c - 1 < size r) by lia.
    pose proof (DbcsAttrAt_classes r (c - 1) Hw Hlen Hc') as [Ht' Hl'].
    destruct (Z_lt_le_dec 0 (c - 1)) as [Hp | Hp].
    + destruct (index_at_Some r (c - 1 - 1)) as [p Ep]; [unfold size in *; lia|].
      destruct (index_at_Some r (c - 1)) as [q Eq]; [unfold size in *; lia|].
      destruct (Z.eq_dec p q) as [E | E].
      * right. apply Ht'. split; [exact Hp | congruence].
      * left. apply Hl'. split; [intros [_ H']; congruence|].
        replace (c - 1 + 1) with c by lia. exact Heq.
    + left. apply Hl'. split; [lia|].
      replace (c - 1 + 1) with c by lia. exact Heq.
  - intros H Hlast. apply Hl in H as [_ Heq].
    assert (Hc' : 0 <= c + 1 < size r) by lia.
    apply (DbcsAttrAt_classes r (c + 1) Hw Hlen Hc').
    split; [lia|]. replace (c + 1 - 1) with c by lia. exact Heq.
Qed.

Lemma halves_come_in_order_witness :
  match Replace_dbcs zero_heap 1 Leading [19968] (blank_row 4 7) with
  | Done r =>
      DbcsAttrAt 1 r = Some Leading /\ DbcsAttrAt 2 r = Some Trailing
  | _ => False
  end.
Proof.
  destruct (Replace_dbcs zero_heap 1 Leading [19968] (blank_row 4 7))
    as [r | e s |] eqn:E; [|vm_compute in E; discriminate ..].
  vm_compute in E. inversion E; subst r; clear E.
  match goal with |- DbcsAttrAt 1 ?r = _ /\ _ =>
    destruct (halves_come_in_order r 1) as [_ H] end.
  - vm_compute. split; [reflexivity | discriminate].
  - reflexivity.
  - vm_compute. split; [discriminate | reflexivity].
  - split; [reflexivity|]. apply H; reflexivity.
Defined.

(** X18.  After a [Reset] of a row with at least [width] code units in
    use, every column, in range or not, is classified [ControlChar],
    whatever the delimiters are, the blank included. *)
Theorem Reset_row_is_all_control (Attr : TextAttribute) (r r' : ROW)
  (used column : Z) (delimiters : list Z)
  (Hr : consistent r)
  (Hused : used_length r = Some used)
  (Hfull : size r <= used)
  (Hreset : Reset Attr r = Done r')
  (Hcol : 0 <= column) :
  DelimiterClassAt column delimiters r' = Some ControlChar.
Proof.
  unfold size, used_length in *.
  pose proof (width_range r Hr) as Hw.
  destruct (Reset_shape _ _ _ Hreset) as (Hn & _).
  unfold DelimiterClassAt. rewrite Hn.
  rewrite usize_small by (rewrite two_64; lia).
  set (c := Z.min column (_indicesCount r - 1)).
  assert (Hc : 0 <= c < _indicesCount r) by (subst c; lia).
  rewrite (Reset_index_at Attr r r' c Hr Hreset) by lia.
  rewrite (Reset_char_at Attr r r' used c Hr Hused Hfull Hreset Hc).
  reflexivity.
Qed.

Lemma Reset_row_is_all_control_witness :
  match Reset 9 (blank_row 3 7) with
  | Done r' => DelimiterClassAt 7 [32; 46] r' = Some ControlChar
  | _ => False
  end.
Proof.
  destruct (Reset 9 (blank_row 3 7)) as [r' | e s |] eqn:E;
    [|vm_compute in E; discriminate ..].
  apply (Reset_row_is_all_control 9 (blank_row 3 7) r' 3).
  - apply blank_row_consistent. split; [reflexivity | discriminate].
  - reflexivity.
  - vm_compute. discriminate.
  - exact E.
  - discriminate.
Defined.

Section Classify.

Variable uninit : nat -> Z.

(** X19.  After a [Reset] of a row with at least [width] code units in
    use, a code unit [t] with [32 < t < 256] written at a column is
    classified [DelimiterChar] if it is among the delimiters and
    [RegularChar] if not. *)
Theorem written_letter_is_classified (Attr : TextAttribute) (r r1 r2 : ROW)
  (used c t : Z) (delimiters : list Z)
  (Hr : consistent r)
  (Hused : used_length r = Some used)
  (Hfull : size r <= used)
  (Hreset : Reset Attr r = Done r1)
  (Hc : 0 <= c < size r)
  (Ht : 32 < t < 256)
  (Hwrite : Replace uninit c 1 [t] r1 = Done r2) :
  DelimiterClassAt c delimiters r2
  = Some (if existsb (Z.eqb t) delimiters then DelimiterChar else RegularChar).
Proof.
  unfold size, used_length in *.
  pose proof (width_range r Hr) as Hw.
  destruct (Reset_shape _ _ _ Hreset) as (Hn & _).
  pose proof (Reset_index_at Attr r r1 c Hr Hreset ltac:(lia)) as H0.
  pose proof (Reset_index_at Attr r r1 (c + 1) Hr Hreset ltac:(lia)) as H1.
  destruct (Replace_one_unit uninit r1 c c t 0)
    as (r2' & H & Hg & Hi & _ & _); unfold size; try lia; try assumption.
  { eapply Reset_high_bytes; eauto. }
  rewrite Hwrite in H. inversion H; subst r2'; clear H.
  pose proof (Replace_frame _ _ _ _ _ _ Hwrite) as ((_ & _ & _ & _ & Hn2) & _).
  assert (Hglyph : GlyphAt c r2 = Some (mkView c 1)).
  { apply GlyphAt_own_offset; unfold index_at in *;
      rewrite ?Hi, ?Hn2, ?Hn; try lia; assumption. }
  assert (Hchar : char_at r2 c = Some t).
  { rewrite char_at_view. unfold glyph_text in Hg. rewrite Hglyph in Hg.
    rewrite Hg. f_equal. rewrite Z.mod_small by lia. lia. }
  unfold DelimiterClassAt. rewrite Hn2, Hn.
  rewrite usize_small by (rewrite two_64; lia).
  replace (Z.min c (_indicesCount r - 1)) with c by lia.
  assert (H0' : index_at r2 c = Some c)
    by (unfold index_at in *; rewrite Hi; exact H0).
  rewrite H0', Hchar.
  replace (t <=? UNICODE_SPACE) with false
    by (symmetry; apply Z.leb_gt; unfold UNICODE_SPACE; lia).
  reflexivity.
Qed.

End Classify.

Lemma written_letter_is_classified_witness :
  match Reset 9 (blank_row 3 7) with
  | Done r1 =>
      match Replace zero_heap 1 1 [46] r1 with
      | Done r2 =>
          DelimiterClassAt 1 [46; 47] r2 = Some DelimiterChar
          /\ DelimiterClassAt 1 [47] r2 = Some RegularChar
      | _ => False
      end
  | _ => False
  end.
Proof.
  destruct (Reset 9 (blank_row 3 7)) as [r1 | e s |] eqn:E;
    [|vm_compute in E; discriminate ..].
  destruct (Replace zero_heap 1 1 [46] r1) as [r2 | e s |] eqn:E2;
    [| vm_compute in E; inversion E; subst r1; vm_compute in E2;
       discriminate ..].
  assert (Hc : consistent (blank_row 3 7))
    by (apply blank_row_consistent; split; [reflexivity | discriminate]).
  split.
  - apply (written_letter_is_classified zero_heap 9 (blank_row 3 7) r1 r2
             3 1 46 [46; 47] Hc); try reflexivity; try assumption;
      vm_compute; try split; try discriminate; reflexivity.
  - apply (written_letter_is_classified zero_heap 9 (blank_row 3 7) r1 r2
             3 1 46 [47] Hc); try reflexivity; try assumption;
      vm_compute; try split; try discriminate; reflexivity.
Defined.

(** ** The iterator over the glyphs *)

(** X20.  Iterating from [CharsBegin] to [CharsEnd] ends, and the glyphs
    it visits follow one another from column 0 to the width without gap or
    overlap: each covers at least one column, all columns of a glyph share
    one offset, neighbouring glyphs have different offsets, and the column
    counts add up to the width. *)
Theorem CharsRange_tiles_the_row (r : ROW)
  (Hw : 0 < size r <= 65535)
  (Hlen : Z.of_nat (length (_indices r)) = size r + 1) :
  exists l,
    CharsRange r = Some l
    /\ tiles l 0 (size r)
    /\ Forall (is_glyph_run r) l
    /\ fold_right Z.add 0 (map Cols l) = size r.
Proof.
  destruct (CharsRange_spec r (proj1 Hw) Hlen) as (l & Hl & Ht & Hf).
  exists l. repeat split; try assumption.
  rewrite (tiles_Cols _ _ _ Ht). unfold size. lia.
Qed.

Lemma CharsRange_tiles_the_row_witness :
  match Replace_dbcs zero_heap 1 Leading [19968; 19969] (blank_row 4 7) with
  | Done r =>
      CharsRange r
      = Some [mkIterator 0 1; mkIterator 1 3; mkIterator 3 4]
      /\ exists l, CharsRange r = Some l
                   /\ fold_right Z.add 0 (map Cols l) = 4
  | _ => False
  end.
Proof.
  destruct (Replace_dbcs zero_heap 1 Leading [19968; 19969] (blank_row 4 7))
    as [r | e s |] eqn:E; [|vm_compute in E; discriminate ..].
  vm_compute in E. inversion E; subst r; clear E.
  split; [reflexivity|].
  match goal with |- exists l, CharsRange ?r = _ /\ _ =>
    destruct (CharsRange_tiles_the_row r) as (l & Hl & _ & _ & Hs) end.
  - vm_compute. split; [reflexivity | discriminate].
  - reflexivity.
  - exists l. split; [exact Hl | exact Hs].
Defined.

(** X21.  For a glyph the iterator visits whose offset differs from the
    one after it (as it always does unless the glyph ends the row),
    [GlyphAt] at any of its columns returns the view [Text] gives. *)
Theorem GlyphAt_agrees_with_the_iterator (r : ROW)
  (l : list RowTextIterator) (i : RowTextIterator) (c : Z)
  (Hw : 0 < size r <= 65535)
  (Hlen : Z.of_nat (length (_indices r)) = size r + 1)
  (Hl : CharsRange r = Some l)
  (Hi : In i l)
  (Hmax : index_at r (_end i) <> index_at r (_beg i))
  (Hc : _beg i <= c < _end i) :
  GlyphAt c r = Text r i
  /\ exists v, Text r i = Some v.
Proof.
  unfold size in *.
  destruct (CharsRange_spec r ltac:(lia) Hlen) as (l' & Hl' & _ & Hf).
  rewrite Hl in Hl'. inversion Hl'; subst l'; clear Hl'.
  rewrite Forall_forall in Hf.
  destruct (Hf i Hi) as (Hbe & Hend & Hu & _ & _).
  destruct (index_at_Some r (_beg i)) as [lhs Hlhs]; [lia|].
  destruct (index_at_Some r (_end i)) as [v Hv]; [lia|].
  assert (Hne : v <> lhs) by congruence.
  unfold Text. rewrite Hlhs, Hv. split; [|eauto].
  unfold GlyphAt.
  rewrite usize_small by (rewrite two_64; lia).
  replace (Z.min c (_indicesCount r - 1)) with c by lia.
  rewrite (Hu c Hc), Hlhs.
  rewrite (scan_ne_run r lhs v (_end i) (Z.to_nat (_end i - (c + 1))));
    try lia; try assumption; [reflexivity|].
  intros j Hj. rewrite (Hu j) by lia. exact Hlhs.
Qed.

(** X22.  For such a glyph [DbcsAttrAt] classifies the first column
    [Single] if the glyph has one column and [Leading] if it has more, and
    every further column [Trailing]; the iterator's own [DbcsAttr] agrees
    with that for glyphs of one or two columns. *)
Theorem DbcsAttrAt_agrees_with_the_iterator (r : ROW)
  (l : list RowTextIterator) (i : RowTextIterator)
  (Hw : 0 < size r <= 65535)
  (Hlen : Z.of_nat (length (_indices r)) = size r + 1)
  (Hl : CharsRange r = Some l)
  (Hi : In i l)
  (Hmax : index_at r (_end i) <> index_at r (_beg i)) :
  DbcsAttrAt (_beg i) r = Some (if Cols i =? 1 then Single else Leading)
  /\ (forall c, _beg i < c < _end i -> DbcsAttrAt c r = Some Trailing)
  /\ (Cols i <= 2 -> DbcsAttrAt (_beg i) r = Some (DbcsAttr_of i)).
Proof.
  destruct (CharsRange_spec r ltac:(unfold size in *; lia) Hlen)
    as (l' & Hl' & _ & Hf).
  rewrite Hl in Hl'. inversion Hl'; subst l'; clear Hl'.
  rewrite Forall_forall in Hf.
  destruct (Hf i Hi) as (Hbe & Hend & Hu & _ & Hbd).
  fold (size r) in Hend.
  assert (Hnt : ~ (0 < _beg i /\ index_at r (_beg i - 1) = index_at r (_beg i)))
    by (intros [H0 Heq]; now apply Hbd).
  assert (Hfirst : DbcsAttrAt (_beg i) r
                   = Some (if Cols i =? 1 then Single else Leading)).
  { unfold Cols. destruct (_end i - _beg i =? 1) eqn:E.
    - apply Z.eqb_eq in E. apply DbcsAttrAt_Single; try assumption; try lia.
      replace (_beg i + 1) with (_end i) by lia. congruence.
    - apply Z.eqb_neq in E.
      apply (DbcsAttrAt_classes r (_beg i) Hw Hlen); [lia|].
      split; [exact Hnt|]. symmetry. apply Hu. lia. }
  split; [exact Hfirst|]. split.
  - intros c Hc. apply (DbcsAttrAt_classes r c Hw Hlen); [lia|].
    split; [lia|]. rewrite (Hu (c - 1)), (Hu c) by lia. reflexivity.
  - intros Hcols. rewrite Hfirst. unfold DbcsAttr_of.
    unfold Cols in *.
    destruct (_end i - _beg i =? 1) eqn:E1;
      destruct (_end i - _beg i =? 2) eqn:E2;
      try reflexivity;
      [apply Z.eqb_eq in E1; apply Z.eqb_eq in E2; lia
      | apply Z.eqb_neq in E1; apply Z.eqb_neq in E2; lia].
Qed.

Lemma GlyphAt_agrees_with_the_iterator_witness :
  match Replace_dbcs zero_heap 1 Leading [19968; 19969] (blank_row 4 7) with
  | Done r => GlyphAt 2 r = Text r (mkIterator 1 3)
  | _ => False
  end.
Proof.
  destruct (Replace_dbcs zero_heap 1 Leading [19968; 19969] (blank_row 4 7))
    as [r | e s |] eqn:E; [|vm_compute in E; discriminate ..].
  vm_compute in E. inversion E; subst r; clear E.
  match goal with |- GlyphAt 2 ?r = _ =>
    apply (GlyphAt_agrees_with_the_iterator r
             [mkIterator 0 1; mkIterator 1 3; mkIterator 3 4]
             (mkIterator 1 3) 2) end.
  - vm_compute. split; [reflexivity | discriminate].
  - reflexivity.
  - reflexivity.
  - right. left. reflexivity.
  - vm_compute. discriminate.
  - vm_compute. split; [discriminate | reflexivity].
Defined.

Lemma DbcsAttrAt_agrees_with_the_iterator_witness :
  match Replace_dbcs zero_heap 1 Leading [19968; 19969] (blank_row 4 7) with
  | Done r =>
      DbcsAttrAt 1 r = Some Leading /\ DbcsAttr_of (mkIterator 1 3) = Leading
  | _ => False
  end.
Proof.
  destruct (Replace_dbcs zero_heap 1 Leading [19968; 19969] (blank_row 4 7))
    as [r | e s |] eqn:E; [|vm_compute in E; discriminate ..].
  vm_compute in E. inversion E; subst r; clear E.
  match goal with |- DbcsAttrAt 1 ?r = _ /\ _ =>
    destruct (DbcsAttrAt_agrees_with_the_iterator r
                [mkIterator 0 1; mkIterator 1 3; mkIterator 3 4]
                (mkIterator 1 3)) as (H & _ & _) end.
  - vm_compute. split; [reflexivity | discriminate].
  - reflexivity.
  - reflexivity.
  - right. left. reflexivity.
  - vm_compute. discriminate.
  - split; [exact H | reflexivity].
Defined.

(** ** More on the text [Replace] *)

Section ReplaceColumns.

Variable uninit : nat -> Z.

(** X23.  A completed [Replace] of [width] columns from column [x] makes
    them one glyph: all of them carry the offset column [x] had before,
    the columns before [x] keep theirs, and every column after the first
    is then classified [Trailing]. *)
Theorem Replace_joins_the_columns (x width : Z) (chars : list Z)
  (r r' : ROW)
  (Hw : size r <= 65535)
  (Hlen : Z.of_nat (length (_indices r)) = size r + 1)
  (Hx : 0 <= x)
  (Hwidth : 0 < width)
  (Hin : x + width <= size r)
  (Hne : chars <> [])
  (Hdone : Replace uninit x width chars r = Done r') :
  exists lhs,
    index_at r x = Some lhs
    /\ (forall i, x <= i < x + width -> index_at r' i = Some lhs)
    /\ (forall i, 0 <= i < x -> index_at r' i = index_at r i)
    /\ (forall c, x < c < x + width -> DbcsAttrAt c r' = Some Trailing).
Proof.
  unfold size in *.
  pose proof (Replace_indices uninit _ _ _ _ _ Hne Hdone) as H.
  cbv zeta in H.
  replace (Z.min x (_indicesCount r)) with x in H by lia.
  rewrite usize_small in H by (rewrite two_64; lia).
  replace (Z.min (x + width) (_indicesCount r)) with (x + width) in H by lia.
  destruct H as (lhs & x2 & Hl & _ & Hx2 & _ & Hcnt & Hlen' & Hinr & Hout).
  exists lhs. split; [exact Hl|]. split; [intros i Hi; apply Hinr; lia|].
  split; [exact Hout|].
  intros c Hc.
  apply (DbcsAttrAt_classes r' c); unfold size; try lia.
  split; [lia|]. rewrite !Hinr by lia. reflexivity.
Qed.

(** X24.  [Replace] with a text and a column at or past the width does
    not stay inside the offset table: it clamps the column to the width and
    scans for another offset from the last entry on. *)
Theorem Replace_past_the_width_leaves_the_table (x width : Z)
  (chars : list Z) (r : ROW)
  (Hlen : Z.of_nat (length (_indices r)) = size r + 1)
  (Hw : 0 <= size r)
  (Hx : size r <= x)
  (Hwidth : 0 <= width)
  (Hsum : size r + width < 2 ^ 64)
  (Hne : chars <> []) :
  Replace uninit x width chars r = Undefined.
Proof.
  unfold size in *. unfold Replace.
  destruct chars as [|ch tl]; [congruence|].
  replace (Z.min x (_indicesCount r)) with (_indicesCount r) by lia.
  rewrite usize_small by lia.
  replace (Z.min (_indicesCount r + width) (_indicesCount r))
    with (_indicesCount r) by lia.
  destruct (index_at_Some r (_indicesCount r)) as [lhs Hl]; [lia|].
  rewrite Hl. cbn [access bind].
  rewrite index_at_nth in Hl by lia.
  rewrite (skipn_nth_error_cons _ _ _ Hl). cbn [scan_ne].
  rewrite Z.eqb_refl.
  rewrite skipn_all2 by lia. reflexivity.
Qed.


End ReplaceColumns.

Lemma Replace_joins_the_columns_witness :
  match Replace zero_heap 1 3 [19968] (blank_row 5 7) with
  | Done r' =>
      index_at r' 1 = Some 1 /\ index_at r' 3 = Some 1
      /\ DbcsAttrAt 3 r' = Some Trailing
  | _ => False
  end.
Proof.
  destruct (Replace zero_heap 1 3 [19968] (blank_row 5 7))
    as [r' | e s |] eqn:E; [|vm_compute in E; discriminate ..].
  destruct (Replace_joins_the_columns zero_heap 1 3 [19968] (blank_row 5 7) r')
    as (lhs & Hl & Hin & _ & Ht); try exact E.
  - vm_compute. discriminate.
  - reflexivity.
  - discriminate.
  - reflexivity.
  - vm_compute. discriminate.
  - discriminate.
  - vm_compute in Hl. inversion Hl; subst lhs.
    split; [apply Hin; split; [discriminate | reflexivity]|].
    split; [apply Hin; split; [discriminate | reflexivity]|].
    apply Ht. split; reflexivity.
Defined.

Lemma Replace_past_the_width_leaves_the_table_witness :
  Replace zero_heap 3 1 [97] (blank_row 3 7) = Undefined.
Proof.
  apply Replace_past_the_width_leaves_the_table.
  - reflexivity.
  - vm_compute. discriminate.
  - vm_compute. discriminate.
  - discriminate.
  - reflexivity.
  - discriminate.
Defined.

